(** * Inventory manager: a shallow embedding of [inventory_manager.py]

    The program keeps a list of [Product] objects, looks products up by
    item code or by name, adds, updates and deletes them, assigns item
    codes [ITM001], [ITM002], ... and stores the list in a JSON file.

    Layout of this file:
    - [Py]: the Python built-ins the program calls ([str.upper],
      [str.lower], [str.strip], [str.startswith], slicing, [int], [max],
      the format specification [03d]);
    - [Json]: the values [json.load] returns and [json.dump] accepts;
    - the heap of [Product] objects, the inventory list, the data file,
      and a state-and-exception monad;
    - the functions of [inventory_manager.py], under their own names,
      and of [app.py] the start of the application and the delete route;
    - lemmas on the built-ins, then on the functions, then the properties
      of the specification, further properties of the code, and examples.

    What the model covers:
    - a [str] is a [string] of ASCII characters: on code points under
      128 ([is_ascii]) case mapping, white space and [int] are Python's;
      statements that need more of letter case than the code's own
      comparison say so with [is_ascii];
    - an [int] is a [Z], a [float] is a binary64 [float], so a price can
      be a NaN or an infinity and [price <= 0] is the IEEE comparison;
    - a conversion between [int] and [str] in base ten raises
      [ValueError] beyond 4300 digits, in [int], in the format
      specification [03d] and in [json.dump];
    - a [Product] is an object on a heap and the inventory is a list of
      references, so an attribute assignment is seen through every
      reference to the object;
    - [json.dump] followed by [json.load] is the identity on the JSON
      values [json.dump] accepts; the file is absent, unreadable,
      undecodable, beyond the digit limit, or holds a value; a failure of
      the write itself after the file is open (a full disk) is not
      modelled;
    - [print] is not modelled, nor are [get_total_inventory_value]
      (floating-point arithmetic under [sum]), [Product.__str__] (decimal
      formatting of a float) and the routes of [app.py] that parse form
      fields with [float] or render a template. *)

From Stdlib Require Import ZArith String Ascii List Lia.
From Stdlib Require Import Decimal DecimalString DecimalFacts DecimalPos DecimalN Floats.
From stdpp Require Import gmap strings list.

#[local] Set Warnings "-register-all".
#[local] Open Scope string_scope.
#[local] Open Scope list_scope.

(** ** Python built-ins *)

Module Py.

(** The exceptions the program can meet. *)
Inductive exn :=
| ValueError | TypeError | KeyError | IOError | JSONDecodeError | OverflowError.

(** A pure computation that returns or raises. *)
Inductive result (A : Type) :=
| Ok (a : A)
| Raise (e : exn).
Arguments Ok {A} a.
Arguments Raise {A} e.

Definition rbind {A B} (r : result A) (k : A -> result B) : result B :=
  match r with
  | Ok a => k a
  | Raise e => Raise e
  end.

(** A list comprehension whose element expression may raise: elements are
    evaluated left to right and the first exception ends the evaluation. *)
Fixpoint rmap {A B} (f : A -> result B) (l : list A) : result (list B) :=
  match l with
  | [] => Ok []
  | x :: l' => rbind (f x) (fun y => rbind (rmap f l') (fun ys => Ok (y :: ys)))
  end.

(** Character classes. A [str] is modelled as a [string] of ASCII
    characters: the case mappings and the white space below are those
    Python applies to code points under 128. *)
Definition isspace (c : ascii) : bool :=
  let n := N_of_ascii c in
  ((9 <=? n) && (n <=? 13) || (28 <=? n) && (n <=? 32))%N.

Definition islower (c : ascii) : bool :=
  let n := N_of_ascii c in ((97 <=? n) && (n <=? 122))%N.

Definition isupper (c : ascii) : bool :=
  let n := N_of_ascii c in ((65 <=? n) && (n <=? 90))%N.

Definition isdigit (c : ascii) : bool :=
  let n := N_of_ascii c in ((48 <=? n) && (n <=? 57))%N.

Definition upper_char (c : ascii) : ascii :=
  if islower c then ascii_of_N (N_of_ascii c - 32) else c.

Definition lower_char (c : ascii) : ascii :=
  if isupper c then ascii_of_N (N_of_ascii c + 32) else c.

(** [s.upper()] and [s.lower()], on ASCII text. *)
Fixpoint upper (s : string) : string :=
  match s with
  | EmptyString => EmptyString
  | String c r => String (upper_char c) (upper r)
  end.

Fixpoint lower (s : string) : string :=
  match s with
  | EmptyString => EmptyString
  | String c r => String (lower_char c) (lower r)
  end.

(** [s.strip()]: leading, then trailing white space removed. *)
Fixpoint lstrip (s : string) : string :=
  match s with
  | EmptyString => EmptyString
  | String c r => if isspace c then lstrip r else s
  end.

Fixpoint rstrip (s : string) : string :=
  match s with
  | EmptyString => EmptyString
  | String c r =>
      match rstrip r with
      | EmptyString => if isspace c then EmptyString else String c EmptyString
      | r' => String c r'
      end
  end.

Definition strip (s : string) : string := rstrip (lstrip s).

(** [s.startswith(p)]. *)
Definition startswith (p s : string) : bool := String.prefix p s.

(** [s[n:]]: the characters from index [n] on, empty when [s] is shorter. *)
Fixpoint slice_from (n : nat) (s : string) : string :=
  match n, s with
  | O, _ => s
  | S n', String _ r => slice_from n' r
  | S _, EmptyString => EmptyString
  end.

(** The white space [int] skips around a numeral: tab to carriage
    return, and the space. The separators 28 to 31, which [str.strip]
    removes, are no white space for [int]. *)
Definition int_space (c : ascii) : bool :=
  let n := N_of_ascii c in
  ((9 <=? n) && (n <=? 13) || (n =? 32))%N.

Fixpoint int_lstrip (s : string) : string :=
  match s with
  | EmptyString => EmptyString
  | String c r => if int_space c then int_lstrip r else s
  end.

Fixpoint int_rstrip (s : string) : string :=
  match s with
  | EmptyString => EmptyString
  | String c r =>
      match int_rstrip r with
      | EmptyString => if int_space c then EmptyString else String c EmptyString
      | r' => String c r'
      end
  end.

Definition int_strip (s : string) : string := int_rstrip (int_lstrip s).

(** [sys.int_info.default_max_str_digits]: the most digits a conversion
    between [int] and [str] in base ten takes before it raises
    [ValueError]. *)
Definition int_max_str_digits : Z := 4300.

(** The digits of [int(s)] in base ten: one or more decimal digits, with
    single underscores allowed between two digits. [after_digit] says
    whether the character before was a digit. *)
Fixpoint int_digits (after_digit : bool) (s : string) : option Decimal.uint :=
  match s with
  | EmptyString => if after_digit then Some Nil else None
  | String c r =>
      if Ascii.eqb c "_"
      then (if after_digit then int_digits false r else None)
      else uint_of_char c (int_digits true r)
  end.

(** [int(s)] for a [str]: surrounding white space is dropped, one sign may
    come first, the rest is read by [int_digits]; anything else raises
    [ValueError], and so do more than [int_max_str_digits] digits,
    leading zeros counted and underscores not. *)
Definition py_int (s : string) : result Z :=
  let t := int_strip s in
  let '(negative, body) :=
    match t with
    | String c r =>
        if Ascii.eqb c "-" then (true, r)
        else if Ascii.eqb c "+" then (false, r)
        else (false, t)
    | EmptyString => (false, t)
    end in
  match int_digits false body with
  | Some d =>
      if (int_max_str_digits <? Z.of_nat (nb_digits d))%Z then Raise ValueError
      else
        let n := Z.of_N (N.of_uint d) in
        Ok (if negative then - n else n)%Z
  | None => Raise ValueError
  end.

(** The decimal digits of a natural number, as [str(n)] writes them. *)
Definition digits (n : N) : string := NilEmpty.string_of_uint (N.to_uint n).

(** Zeros on the left up to [width] characters. *)
Fixpoint zeros (k : nat) : string :=
  match k with
  | O => EmptyString
  | S k' => String "0" (zeros k')
  end.

Definition zero_pad (width : nat) (s : string) : string :=
  zeros (width - String.length s) +:+ s.

(** The text the format specification [03d] gives for [n]: at least
    three characters, zeros between the sign and the digits. *)
Definition text_03d (n : Z) : string :=
  if (n <? 0)%Z
  then String "-" (zero_pad 2 (digits (Z.abs_N n)))
  else zero_pad 3 (digits (Z.abs_N n)).

(** [n] has at most [int_max_str_digits] decimal digits: [str(n)],
    [repr(n)] and the format specifications in base ten return for such
    an [n] and raise [ValueError] for every other. *)
Definition within_limit (n : Z) : bool :=
  (Z.of_nat (String.length (digits (Z.abs_N n))) <=? int_max_str_digits)%Z.

(** [f"{n:03d}"]. *)
Definition format_03d (n : Z) : result string :=
  if within_limit n then Ok (text_03d n) else Raise ValueError.

(** [max(l)] on a non-empty list of integers, given as head and tail. *)
Definition py_max (x : Z) (l : list Z) : Z := fold_left Z.max l x.

(** Predicates on strings used in the statements below. *)
Fixpoint all_chars (P : ascii -> bool) (s : string) : bool :=
  match s with
  | EmptyString => true
  | String c r => P c && all_chars P r
  end.

Fixpoint any_char (P : ascii -> bool) (s : string) : bool :=
  match s with
  | EmptyString => false
  | String c r => P c || any_char P r
  end.

(** [s] contains a lowercase letter, one of [a] to [z]. *)
Definition has_lower (s : string) : bool := any_char islower s.

(** [s] begins, or ends, with a white-space character. *)
Definition starts_with_space (s : string) : bool :=
  match s with
  | EmptyString => false
  | String c _ => isspace c
  end.


(** [s] is a non-empty string of decimal digits. *)
Definition is_numeral (s : string) : bool :=
  negb (String.eqb s EmptyString) && all_chars isdigit s.

(** [s] is a non-empty string of at most [int_max_str_digits] decimal
    digits. *)
Definition short_numeral (s : string) : bool :=
  is_numeral s && (Z.of_nat (String.length s) <=? int_max_str_digits)%Z.

(** Every character of [s] is an ASCII character, a code point under
    128. *)
Definition is_ascii (s : string) : bool :=
  all_chars (fun c => (N_of_ascii c <? 128)%N) s.

(** [int(s)] returns. *)
Definition int_accepts (s : string) : bool :=
  match py_int s with
  | Ok _ => true
  | Raise _ => false
  end.

(** Equality of two strings ignoring letter case. *)
Definition eq_ignore_case (a b : string) : Prop := lower a = lower b.

End Py.

(** ** JSON values *)

Module Json.
Import Py.

(** What [json.load] returns: [None], [bool], [int], [float], [str],
    [list], and [dict] with string keys. *)
Inductive value :=
| JNull
| JBool (b : bool)
| JInt (z : Z)
| JFloat (f : float)
| JStr (s : string)
| JList (l : list value)
| JObj (m : gmap string value).

(** [item[key]] with a string key: a [dict] without the key raises
    [KeyError]; no other JSON value can be indexed by a string. *)
Definition subscript (item : value) (key : string) : result value :=
  match item with
  | JObj m =>
      match m !! key with
      | Some v => Ok v
      | None => Raise KeyError
      end
  | _ => Raise TypeError
  end.

(** [for item in data]: a list yields its elements, a dict its keys, a
    string its characters; the other values are not iterable. The keys
    of a dict come in the order of the map, not in Python's insertion
    order. *)
Definition iterate (data : value) : result (list value) :=
  match data with
  | JList l => Ok l
  | JObj m => Ok (JStr <$> (map_to_list m).*1)
  | JStr s => Ok ((fun c => JStr (String c EmptyString)) <$> list_ascii_of_string s)
  | _ => Raise TypeError
  end.

(** [int(v)]: an integer is itself, a bool is 0 or 1, a float is
    truncated towards zero (a NaN raises [ValueError], an infinity
    [OverflowError]), a string is parsed; the other values raise
    [TypeError]. *)
Definition int_of (v : value) : result Z :=
  match v with
  | JInt z => Ok z
  | JBool b => Ok (if b then 1 else 0)%Z
  | JFloat f =>
      match Prim2SF f with
      | S754_zero _ => Ok 0%Z
      | S754_infinity _ => Raise OverflowError
      | S754_nan => Raise ValueError
      | S754_finite s m e =>
          let v := Z.shiftl (Z.pos m) e in
          Ok (if s then - v else v)%Z
      end
  | JStr s => py_int s
  | _ => Raise TypeError
  end.

(** [json.dump] can write [v]: it writes every integer with
    [int.__repr__], which raises [ValueError] beyond the digit limit. *)
Fixpoint dumpable (v : value) : bool :=
  match v with
  | JInt z => within_limit z
  | JList l => forallb dumpable l
  | JObj m => map_fold (fun _ x b => dumpable x && b) true m
  | _ => true
  end.

End Json.

(** ** Objects, the inventory list and the data file *)

Import Py.
Import Json.

(** The identity of a [Product] object. *)
Definition loc := nat.

(** [class Product], with the attribute types of [__init__]. *)
Record Product := mkProduct {
  name : string;
  price : float;
  stock : Z;
  item_code : string
}.

#[global] Instance Product_inhabited : Inhabited Product :=
  populate (mkProduct "" 0%float 0%Z "").

(** [INVENTORYFILE] as the file system shows it: absent; present but not
    openable for reading; present but not JSON ([json.load] raises
    [JSONDecodeError]); JSON with an integer of more digits than
    [int_max_str_digits] ([json.load] raises [ValueError]); or a JSON
    text for which [json.load] returns [data]. *)
Inductive file_state :=
| Missing
| Unreadable
| Corrupt
| Oversize
| Holds (data : value).

(** The state the program runs in. [inventory] is the one list object
    that [app.py] creates at start and hands to every function of
    [inventory_manager] as their [inventory] argument; its elements are
    references into [heap]. [writable] says whether opening the data file
    for writing succeeds. *)
Record State := mkState {
  heap : gmap loc Product;
  inventory : list loc;
  file : file_state;
  writable : bool
}.

Definition set_heap (h : gmap loc Product) (σ : State) : State :=
  mkState h (inventory σ) (file σ) (writable σ).
Definition set_inventory (l : list loc) (σ : State) : State :=
  mkState (heap σ) l (file σ) (writable σ).
Definition set_file (f : file_state) (σ : State) : State :=
  mkState (heap σ) (inventory σ) f (writable σ).

(** How a call ends: it returns, it raises, or it builds a [Product]
    whose attributes are outside the types above ([IllTyped]; only
    [load_inventory] can, from a file whose fields have other JSON
    types). *)
Inductive outcome (A : Type) :=
| Ret (a : A) (σ : State)
| Throw (e : exn) (σ : State)
| IllTyped.
Arguments Ret {A} a σ.
Arguments Throw {A} e σ.
Arguments IllTyped {A}.

Definition M (A : Type) : Type := State -> outcome A.

#[global] Instance M_ret : MRet M := fun A a σ => Ret a σ.
#[global] Instance M_bind : MBind M := fun A B k m σ =>
  match m σ with
  | Ret a σ' => k a σ'
  | Throw e σ' => Throw e σ'
  | IllTyped => IllTyped
  end.

Definition get : M State := fun σ => Ret σ σ.
Definition modify (f : State -> State) : M unit := fun σ => Ret tt (f σ).
Definition raise {A} (e : exn) : M A := fun σ => Throw e σ.
Definition ill_typed {A} : M A := fun _ => IllTyped.

(** A pure computation run inside [M]. *)
Definition lift {A} (r : result A) : M A :=
  match r with
  | Ok a => mret a
  | Raise e => raise e
  end.

(** [try: body  except (e1, e2, ...): handler]. *)
Definition try_except {A} (body : M A) (caught : exn -> bool) (handler : M A) : M A :=
  fun σ =>
    match body σ with
    | Throw e σ' => if caught e then handler σ' else Throw e σ'
    | o => o
    end.

(** The object a reference points to. Python has no dangling reference:
    [wf] below states it and every function preserves it ([wf_preserved]),
    so the default value of the total lookup is never read. *)
Definition deref (σ : State) (l : loc) : Product := heap σ !!! l.

Definition wf (σ : State) : Prop :=
  Forall (fun l => is_Some (heap σ !! l)) (inventory σ).

(** The inventory as the list of its objects' current values. *)
Definition products (σ : State) : list Product := deref σ <$> inventory σ.

(** [Product(name, price, stock, item_code)]: a new object. *)
Definition new_Product (p : Product) : M loc := fun σ =>
  let l := fresh (dom (heap σ)) in
  Ret l (set_heap (<[l := p]> (heap σ)) σ).

(** [product.stock = v] and [product.price = v]. *)
Definition assign_stock (l : loc) (v : Z) : M unit :=
  modify (fun σ =>
    let p := deref σ l in
    set_heap (<[l := mkProduct (name p) (price p) v (item_code p)]> (heap σ)) σ).

Definition assign_price (l : loc) (v : float) : M unit :=
  modify (fun σ =>
    let p := deref σ l in
    set_heap (<[l := mkProduct (name p) v (stock p) (item_code p)]> (heap σ)) σ).

(** [inventory.append(l)]. *)
Definition list_append (l : loc) : M unit :=
  modify (fun σ => set_inventory (inventory σ ++ [l]) σ).

(** [list.remove(x)] on a list of objects that compare by identity: the
    first occurrence goes; [None] when there is none. *)
Fixpoint remove_first (x : loc) (l : list loc) : option (list loc) :=
  match l with
  | [] => None
  | y :: l' =>
      if decide (y = x) then Some l'
      else (y ::.) <$> remove_first x l'
  end.

(** [inventory.remove(l)]; raises [ValueError] when [l] is not in it. *)
Definition list_remove (l : loc) : M unit := fun σ =>
  match remove_first l (inventory σ) with
  | Some inv' => Ret tt (set_inventory inv' σ)
  | None => Throw ValueError σ
  end.

(** ** The functions of [inventory_manager.py] *)

Definition LOW_STOCKTHRESHOLD : Z := 10.

(** [Product.to_dict]. *)
Definition to_dict (p : Product) : value :=
  JObj (<["name" := JStr (name p)]>
       (<["price" := JFloat (price p)]>
       (<["stock" := JInt (stock p)]>
       (<["item_code" := JStr (item_code p)]> ∅)))).

(** [open(INVENTORYFILE, 'r')] followed by [json.load]. *)
Definition read_json : M value := fun σ =>
  match file σ with
  | Missing | Unreadable => Throw IOError σ
  | Corrupt => Throw JSONDecodeError σ
  | Oversize => Throw ValueError σ
  | Holds data => Ret data σ
  end.

(** [open(INVENTORYFILE, 'w')] followed by [json.dump(data, f, indent=4)].
    When the file cannot be opened [IOError] is raised and the file is
    as it was. Once it is open its old content is gone; [json.dump]
    writes the text piece by piece and raises [ValueError] at the first
    integer beyond the digit limit, which leaves the beginning of a JSON
    text in the file. *)
Definition write_json (data : value) : M unit := fun σ =>
  if writable σ then
    if dumpable data then Ret tt (set_file (Holds data) σ)
    else Throw ValueError (set_file Corrupt σ)
  else Throw IOError σ.

(** The arguments of one [Product(...)] call of [load_inventory], in the
    order Python evaluates them: [item['name']], [item['price']],
    [int(item['stock'])], [item['item_code']]. *)
Definition load_item (item : value) : result (value * value * Z * value) :=
  rbind (subscript item "name") (fun n =>
  rbind (subscript item "price") (fun p =>
  rbind (rbind (subscript item "stock") int_of) (fun s =>
  rbind (subscript item "item_code") (fun c =>
  Ok (n, p, s, c))))).

(** The arguments as a [Product], when they have the attribute types. *)
Definition typed (a : value * value * Z * value) : option Product :=
  match a with
  | (JStr n, JFloat p, s, JStr c) => Some (mkProduct n p s c)
  | _ => None
  end.

(** The objects of a list of values, created left to right. *)
Fixpoint new_Products (ps : list Product) : M (list loc) :=
  match ps with
  | [] => mret []
  | p :: ps' => l ← new_Product p; ls ← new_Products ps'; mret (l :: ls)
  end.

Definition load_caught (e : exn) : bool :=
  match e with
  | IOError | JSONDecodeError | KeyError | ValueError => true
  | _ => false
  end.

Definition load_inventory : M (list loc) :=
  σ ← get;
  match file σ with
  | Missing => mret []
  | _ =>
      try_except
        (data ← read_json;
         items ← lift (iterate data);
         args ← lift (rmap load_item items);
         match mapM typed args with
         | Some ps => new_Products ps
         | None => ill_typed
         end)
        load_caught
        (mret [])
  end.

Definition save_inventory : M unit :=
  σ ← get;
  let data := JList (to_dict <$> products σ) in
  try_except (write_json data)
    (fun e => match e with IOError => true | _ => false end)
    (mret tt).

Definition generate_item_code (σ : State) : result string :=
  match inventory σ with
  | [] => Ok "ITM001"
  | _ =>
      rbind
        (rmap (fun p => py_int (slice_from 3 (item_code p)))
              (List.filter (fun p => startswith "ITM" (item_code p)) (products σ)))
        (fun codes =>
           let new_num :=
             match codes with
             | c :: cs => (py_max c cs + 1)%Z
             | [] => 1%Z
             end in
           rbind (format_03d new_num) (fun t => Ok ("ITM" +:+ t)))
  end.

(** [find_product] and [get_product_by_name] return the first object of
    the generator, or [None]. *)
Definition find_product (σ : State) (code : string) : option loc :=
  List.find
    (fun l => bool_decide (item_code (deref σ l) = strip (upper code)))
    (inventory σ).

Definition get_product_by_name (σ : State) (n : string) : option loc :=
  List.find
    (fun l => bool_decide (lower (name (deref σ l)) = lower n))
    (inventory σ).

Definition add_product (n : string) (pr : float) (st : Z) : M (option loc) :=
  if (pr <=? 0)%float || (st <? 0)%Z then mret None
  else
    σ ← get;
    match get_product_by_name σ n with
    | Some _ => mret None
    | None =>
        code ← lift (generate_item_code σ);
        new_product ← new_Product (mkProduct n pr st code);
        list_append new_product;;
        mret (Some new_product)
    end.

Definition update_product_details
    (code : string) (new_stock : option Z) (new_price : option float) : M bool :=
  σ ← get;
  match find_product σ code with
  | None => mret false
  | Some product =>
      let price_step : M bool :=
        match new_price with
        | Some v =>
            if (v <=? 0)%float then mret false
            else assign_price product v;; mret true
        | None => mret true
        end in
      match new_stock with
      | Some v =>
          if (v <? 0)%Z then mret false
          else assign_stock product v;; price_step
      | None => price_step
      end
  end.

Definition delete_product (code : string) : M bool :=
  σ ← get;
  match find_product σ code with
  | Some product => list_remove product;; mret true
  | None => mret false
  end.

Definition get_low_stock_items (σ : State) : list loc :=
  List.filter (fun l => (stock (deref σ l) <? LOW_STOCKTHRESHOLD)%Z) (inventory σ).

(** ** The callers in [app.py] *)

(** [inventory = inventory_manager.load_inventory()], which runs once
    when the application starts: the loaded list becomes the inventory. *)
Definition app_start : M unit :=
  ls ← load_inventory;
  modify (set_inventory ls).

(** The categories of the messages the routes [flash]. *)
Inductive category := success | danger | warning.

(** [delete_product_route(item_code)]. The route flashes one message and
    redirects to the index page; the model returns the message with its
    category and leaves the redirect out. *)
Definition delete_product_route (code : string) : M (string * category) :=
  deleted ← delete_product code;
  if deleted : bool then
    save_inventory;;
    mret ("Product " +:+ code +:+ " deleted successfully!", warning)
  else
    mret ("Error: Product " +:+ code +:+ " not found.", danger).

(** ** Vocabulary of the statements *)

(** The stored item codes, in inventory order. *)
Definition codes (σ : State) : list string := item_code <$> products σ.

(** What follows [ITM] in every stored code that starts with it. *)
Definition suffixes (σ : State) : list string :=
  slice_from 3 <$> List.filter (startswith "ITM") (codes σ).

(** [int] accepts every such suffix. *)
Definition parsable (σ : State) : bool := forallb int_accepts (suffixes σ).

(** Every such suffix is a non-empty string of decimal digits. *)
Definition numbered (σ : State) : bool := forallb is_numeral (suffixes σ).

(** Every such suffix is a non-empty string of at most
    [int_max_str_digits] decimal digits. *)
Definition short_numbered (σ : State) : bool := forallb short_numeral (suffixes σ).

(** The numbers among the suffixes: the values of those [int] accepts. *)
Definition numbers (σ : State) : list Z :=
  omap (fun s => match py_int s with Ok k => Some k | Raise _ => None end)
       (suffixes σ).

(** [m] is the largest of these numbers. *)
Definition max_number (σ : State) (m : Z) : Prop :=
  m ∈ numbers σ ∧ ∀ j, j ∈ numbers σ → (j <= m)%Z.

(** [k] is the next number of the sequence: 1 when there is no number,
    the successor of the largest otherwise. *)
Definition next_number (σ : State) (k : Z) : Prop :=
  (numbers σ = [] ∧ k = 1%Z) ∨ (∃ m, max_number σ m ∧ k = (m + 1)%Z).

(** The next number of the sequence has at most [int_max_str_digits]
    digits, so that it can be written. *)
Definition next_fits (σ : State) : Prop :=
  ∀ k, next_number σ k → within_limit k = true.


(** The query as [find_product] compares it. *)
Definition normalise (code : string) : string := strip (upper code).

(** [σ'] is [σ] after attribute assignments to the object [l0]: the
    inventory list and the file are the same, every other object is
    untouched, no object is lost, and [l0] keeps its name and code. *)
Definition updated_at (l0 : loc) (σ σ' : State) : Prop :=
  inventory σ' = inventory σ ∧ file σ' = file σ ∧ writable σ' = writable σ ∧
  (∀ l, l ≠ l0 → heap σ' !! l = heap σ !! l) ∧
  (∀ l, is_Some (heap σ !! l) → is_Some (heap σ' !! l)) ∧
  name (deref σ' l0) = name (deref σ l0) ∧
  item_code (deref σ' l0) = item_code (deref σ l0).

(** A character that [upper] and [strip] leave alone. *)
Definition plain_char (c : ascii) : bool := negb (islower c) && negb (isspace c).

(** The names as [get_product_by_name] compares them. *)
Definition folded_names (σ : State) : list string :=
  (fun p => lower (name p)) <$> products σ.

(** A code as [generate_item_code] writes them: [ITM] and a non-empty
    string of decimal digits. *)
Definition well_coded (c : string) : bool :=
  startswith "ITM" c && is_numeral (slice_from 3 c).

(** The state of an inventory that the program itself has built: every
    reference is valid, no two products share a code or a name (letter
    case ignored), every code is well formed, and every price and stock
    has passed the checks of [add_product] and
    [update_product_details]. *)
Definition consistent (σ : State) : Prop :=
  wf σ ∧
  NoDup (codes σ) ∧
  NoDup (folded_names σ) ∧
  Forall (fun p => well_coded (item_code p) = true ∧
                   (price p <=? 0)%float = false ∧
                   (0 <= stock p)%Z) (products σ).

(** The file holds what [save_inventory] writes for the products [ps]. *)
Definition snapshot (ps : list Product) : file_state :=
  Holds (JList (to_dict <$> ps)).

(** Every stock of [ps] has at most [int_max_str_digits] digits, so that
    [json.dump] can write it. *)
Definition savable (ps : list Product) : bool :=
  forallb (fun p => within_limit (stock p)) ps.

(** The state a new process of the application starts in: no object and
    no list yet, and the file system as the last process left it. *)
Definition new_process (σ : State) : State :=
  mkState ∅ [] (file σ) (writable σ).


(** ** States for the examples *)

(** The state that holds the given products, in order, at locations
    0, 1, ...; no data file yet, and the directory is writable. *)
Definition state_of (ps : list Product) : State :=
  mkState (list_to_map (zip (seq 0 (length ps)) ps)) (seq 0 (length ps)) Missing true.

(** No product, no data file. *)
Definition empty_state : State := state_of [].

Definition pen : Product := mkProduct "Pen" 10 5 "ITM001".
Definition ink : Product := mkProduct "Ink" 2.5 50 "ITM003".

(** Two products with the codes [ITM001] and [ITM003]. *)
Definition shop : State := state_of [pen; ink].

(** One product whose code is [ITM] followed by a letter, and one whose
    code is [ITM] alone. *)
Definition odd_shop : State := state_of [mkProduct "Pen" 10 5 "ITMx"].
Definition bare_shop : State := state_of [mkProduct "Pen" 10 5 "ITM"].

(** A well-numbered product followed by an odd one. *)
Definition mixed_shop : State := state_of [pen; mkProduct "Nib" 1 1 "ITMx"].

(** One product whose code is in lowercase. *)
Definition lower_shop : State := state_of [mkProduct "Pen" 10 5 "itm001"].


(** [k] times the digit nine. *)
Fixpoint nines (k : nat) : string :=
  match k with
  | O => EmptyString
  | S k' => String "9" (nines k')
  end.

(** One product whose number has 4301 digits, a one and 4300 zeros, and
    one whose number is the largest of 4300 digits. *)
Definition long_shop : State :=
  state_of [mkProduct "Pen" 10 5 ("ITM1" +:+ zeros 4300)].
Definition last_shop : State :=
  state_of [mkProduct "Pen" 10 5 ("ITM" +:+ nines 4300)].



(** ** Tactics *)

(** The 256 characters, one goal each. *)
Ltac ascii_cases c := destruct c as [[] [] [] [] [] [] [] []].

(** One step of the monad. *)
Ltac run :=
  unfold mbind, M_bind, mret, M_ret, get, modify, lift, raise; cbn beta iota.

(** ** Lemmas on the built-ins *)


Lemma upper_char_space c : isspace (upper_char c) = isspace c.
Proof. ascii_cases c; reflexivity. Qed.

Lemma upper_lower_char c : upper_char (lower_char c) = upper_char c.
Proof. ascii_cases c; reflexivity. Qed.

Lemma lower_upper_char c : lower_char (upper_char c) = lower_char c.
Proof. ascii_cases c; reflexivity. Qed.

Lemma digit_not_space c : isdigit c = true -> isspace c = false.
Proof. ascii_cases c; simpl; intros H; try reflexivity; discriminate H. Qed.

Lemma digit_not_int_space c : isdigit c = true -> int_space c = false.
Proof. ascii_cases c; simpl; intros H; try reflexivity; discriminate H. Qed.

Lemma digit_not_underscore c : isdigit c = true -> Ascii.eqb c "_" = false.
Proof. ascii_cases c; simpl; intros H; try reflexivity; discriminate H. Qed.

Lemma digit_not_sign c :
  isdigit c = true -> Ascii.eqb c "-" = false /\ Ascii.eqb c "+" = false.
Proof. ascii_cases c; simpl; intros H; try (split; reflexivity); discriminate H. Qed.

Lemma digit_uint_of_char c d :
  isdigit c = true -> exists d', uint_of_char c (Some d) = Some d'.
Proof. ascii_cases c; simpl; intros H; try discriminate H; eexists; reflexivity. Qed.

Lemma upper_char_id c : islower c = false -> upper_char c = c.
Proof. unfold upper_char. intros ->. reflexivity. Qed.

Lemma upper_lower s : upper (lower s) = upper s.
Proof. induction s as [|c r IH]; simpl; [reflexivity|]. now rewrite upper_lower_char, IH. Qed.

Lemma lower_upper s : lower (upper s) = lower s.
Proof. induction s as [|c r IH]; simpl; [reflexivity|]. now rewrite lower_upper_char, IH. Qed.


Lemma upper_id s : has_lower s = false -> upper s = s.
Proof.
  unfold has_lower. induction s as [|c r IH]; simpl; [reflexivity|].
  intros [Hc Hr]%orb_false_iff. now rewrite upper_char_id, IH.
Qed.

Lemma upper_empty s : upper s = EmptyString <-> s = EmptyString.
Proof. destruct s; simpl; split; intros H; try reflexivity; discriminate H. Qed.

Lemma upper_lstrip s : upper (lstrip s) = lstrip (upper s).
Proof.
  induction s as [|c r IH]; simpl; [reflexivity|].
  rewrite upper_char_space. destruct (isspace c); [exact IH | reflexivity].
Qed.

Lemma upper_rstrip s : upper (rstrip s) = rstrip (upper s).
Proof.
  induction s as [|c r IH]; simpl; [reflexivity|].
  rewrite <- IH, upper_char_space.
  destruct (rstrip r) as [|c' r']; simpl; [destruct (isspace c)|]; reflexivity.
Qed.

Lemma upper_strip s : upper (strip s) = strip (upper s).
Proof. unfold strip. now rewrite upper_rstrip, upper_lstrip. Qed.






(** A string without white space is its own [strip]. *)
Lemma lstrip_id s : starts_with_space s = false -> lstrip s = s.
Proof. destruct s as [|c r]; simpl; [reflexivity|]. now intros ->. Qed.

Lemma rstrip_id s : all_chars (fun c => negb (isspace c)) s = true -> rstrip s = s.
Proof.
  induction s as [|c r IH]; simpl; [reflexivity|].
  intros [Hc Hr]%andb_true_iff. rewrite (IH Hr).
  destruct r; [|reflexivity]. now apply negb_true_iff in Hc as ->.
Qed.

Lemma strip_id s : all_chars (fun c => negb (isspace c)) s = true -> strip s = s.
Proof.
  intros H. unfold strip. rewrite lstrip_id; [now apply rstrip_id|].
  destruct s as [|c r]; simpl in *; [reflexivity|].
  apply andb_true_iff in H as [H _]. now apply negb_true_iff in H.
Qed.

(** Likewise for the white space of [int]. *)
Lemma int_strip_id s :
  all_chars (fun c => negb (int_space c)) s = true -> int_strip s = s.
Proof.
  intros H. unfold int_strip.
  assert (int_lstrip s = s) as ->.
  { destruct s as [|c r]; simpl in *; [reflexivity|].
    apply andb_true_iff in H as [H _]. now apply negb_true_iff in H as ->. }
  induction s as [|c r IH]; simpl; [reflexivity|].
  simpl in H. apply andb_true_iff in H as [Hc Hr]. rewrite (IH Hr).
  destruct r; [|reflexivity]. now apply negb_true_iff in Hc as ->.
Qed.

Lemma all_chars_impl (P Q : ascii -> bool) s :
  (forall c, P c = true -> Q c = true) -> all_chars P s = true -> all_chars Q s = true.
Proof.
  intros HPQ. induction s as [|c r IH]; simpl; [reflexivity|].
  intros [Hc Hr]%andb_true_iff. now rewrite (HPQ _ Hc), IH.
Qed.

Lemma all_chars_app P s t :
  all_chars P (s +:+ t) = all_chars P s && all_chars P t.
Proof. induction s as [|c r IH]; simpl; [reflexivity|]. now rewrite IH, andb_assoc. Qed.

(** *** Reading and writing decimal numerals *)

Lemma digits_of_uint d : all_chars isdigit (NilEmpty.string_of_uint d) = true.
Proof. induction d; simpl; auto. Qed.

Lemma zeros_digits k : all_chars isdigit (zeros k) = true.
Proof. induction k; simpl; auto. Qed.

(** On digits alone [int_digits] is the library's reader of numerals. *)
Lemma int_digits_numeral b s :
  all_chars isdigit s = true -> b = true \/ s <> EmptyString ->
  int_digits b s = NilEmpty.uint_of_string s.
Proof.
  revert b. induction s as [|c r IH]; simpl; intros b Hd Hb.
  - destruct Hb as [-> | Hb]; [reflexivity | contradiction].
  - apply andb_true_iff in Hd as [Hc Hr].
    rewrite (digit_not_underscore _ Hc), (IH true Hr); auto.
Qed.

Lemma numeral_read s :
  all_chars isdigit s = true -> exists d, NilEmpty.uint_of_string s = Some d.
Proof.
  induction s as [|c r IH]; simpl; intros Hd; [eauto|].
  apply andb_true_iff in Hd as [Hc Hr].
  destruct (IH Hr) as [d ->]. now apply digit_uint_of_char.
Qed.

Lemma uint_of_zeros k d :
  NilEmpty.uint_of_string (zeros k +:+ NilEmpty.string_of_uint d)
  = Some (Nat.iter k D0 d).
Proof.
  induction k as [|k IH]; simpl; [apply NilEmpty.usu|]. now rewrite IH.
Qed.

Lemma of_uint_zeros k d : N.of_uint (Nat.iter k D0 d) = N.of_uint d.
Proof. induction k as [|k IH]; simpl; [reflexivity | exact IH]. Qed.

Lemma digits_nonempty n : digits n <> EmptyString.
Proof.
  unfold digits. destruct n as [|p]; simpl; [discriminate|].
  pose proof (DecimalPos.Unsigned.to_uint_nonnil p) as H.
  destruct (Pos.to_uint p); simpl; congruence.
Qed.

Lemma zero_pad_read w n :
  int_digits false (zero_pad w (digits n)) = Some (Nat.iter (w - String.length (digits n)) D0 (N.to_uint n)).
Proof.
  unfold zero_pad. rewrite int_digits_numeral.
  - apply uint_of_zeros.
  - rewrite all_chars_app, zeros_digits. apply digits_of_uint.
  - right. intros H. apply (digits_nonempty n).
    destruct (zeros (w - String.length (digits n))); simpl in H; [exact H | discriminate H].
Qed.

Lemma zero_pad_digits w n : all_chars isdigit (zero_pad w (digits n)) = true.
Proof. unfold zero_pad. rewrite all_chars_app, zeros_digits. apply digits_of_uint. Qed.

Lemma zero_pad_first w n :
  exists c r, zero_pad w (digits n) = String c r /\ isdigit c = true.
Proof.
  pose proof (zero_pad_digits w n) as Hd.
  destruct (zero_pad w (digits n)) as [|c r] eqn:E.
  - exfalso. unfold zero_pad in E. apply (digits_nonempty n).
    destruct (zeros (w - String.length (digits n))); simpl in E; [exact E | discriminate E].
  - exists c, r. split; [reflexivity|]. simpl in Hd. now apply andb_true_iff in Hd.
Qed.

Lemma length_string_of_uint d :
  String.length (NilEmpty.string_of_uint d) = nb_digits d.
Proof. induction d; simpl; auto. Qed.

Lemma length_zeros k : String.length (zeros k) = k.
Proof. induction k; simpl; auto. Qed.

Lemma length_append_string (s t : string) :
  String.length (s +:+ t) = String.length s + String.length t.
Proof. induction s as [|c s IH]; simpl; auto. Qed.

Lemma length_zero_pad w s :
  String.length (zero_pad w s) = Nat.max w (String.length s).
Proof. unfold zero_pad. rewrite length_append_string, length_zeros. lia. Qed.

(** A numeral that is read has as many digits as characters. *)
Lemma nb_digits_read s d :
  NilEmpty.uint_of_string s = Some d -> nb_digits d = String.length s.
Proof.
  revert d. induction s as [|c r IH]; simpl; intros d H.
  - now injection H as <-.
  - destruct (NilEmpty.uint_of_string r) as [d'|]; [|ascii_cases c; discriminate H].
    specialize (IH d' eq_refl).
    ascii_cases c; simpl in H; try discriminate H; injection H as <-; simpl; now rewrite IH.
Qed.

(** The padded digits of a number within the limit are within it. *)
Lemma padded_within_limit w n :
  w <= 3 -> within_limit n = true ->
  (int_max_str_digits
   <? Z.of_nat (nb_digits (Nat.iter (w - String.length (digits (Z.abs_N n))) D0
                             (N.to_uint (Z.abs_N n)))))%Z = false.
Proof.
  unfold within_limit, int_max_str_digits, digits. intros Hw Hn.
  rewrite length_string_of_uint in *. rewrite nb_digits_iter_D0.
  apply Z.leb_le in Hn. apply Z.ltb_ge. lia.
Qed.

(** [int] reads back what the format specification [03d] writes. *)
Lemma py_int_text n : within_limit n = true -> py_int (text_03d n) = Ok n.
Proof.
  intros Hn. unfold text_03d. destruct (Z.ltb_spec n 0) as [Hneg | Hpos].
  - unfold py_int. rewrite int_strip_id.
    + cbn [Ascii.eqb Bool.eqb]. rewrite zero_pad_read.
      rewrite (padded_within_limit 2 n) by (lia || exact Hn). cbn beta iota zeta.
      rewrite of_uint_zeros, DecimalN.Unsigned.of_to. f_equal. lia.
    + cbn [all_chars]. apply andb_true_iff. split; [reflexivity|].
      eapply all_chars_impl; [|apply zero_pad_digits].
      intros c Hc. now rewrite digit_not_int_space.
  - unfold py_int. rewrite int_strip_id.
    + destruct (zero_pad_first 3 (Z.abs_N n)) as (c & r & E & Hc).
      pose proof (zero_pad_read 3 (Z.abs_N n)) as Hr.
      pose proof (padded_within_limit 3 n (le_n 3) Hn) as Hlim.
      rewrite E in *. destruct (digit_not_sign _ Hc) as [-> ->].
      rewrite Hr, Hlim. cbn beta iota zeta.
      rewrite of_uint_zeros, DecimalN.Unsigned.of_to. f_equal. lia.
    + eapply all_chars_impl; [|apply zero_pad_digits].
      intros c Hc. now rewrite digit_not_int_space.
Qed.

Lemma py_int_format n t : format_03d n = Ok t -> py_int t = Ok n.
Proof.
  unfold format_03d. destruct (within_limit n) eqn:E; [|discriminate].
  intros [= <-]. now apply py_int_text.
Qed.

(** On a non-empty string of digits [int] looks at their number only:
    within the limit it returns a value that is not negative. *)
Lemma py_int_numeral_run s :
  is_numeral s = true ->
  exists k, (0 <= k)%Z /\
    py_int s = if (int_max_str_digits <? Z.of_nat (String.length s))%Z
               then Raise ValueError else Ok k.
Proof.
  unfold is_numeral. intros [Hne Hd]%andb_true_iff.
  destruct s as [|c r]; [discriminate Hne|].
  unfold py_int. rewrite int_strip_id.
  - pose proof Hd as Hd'. simpl in Hd'. apply andb_true_iff in Hd' as [Hc _].
    destruct (digit_not_sign _ Hc) as [-> ->].
    rewrite int_digits_numeral; [|exact Hd|right; discriminate].
    destruct (numeral_read _ Hd) as [d Hread]. rewrite Hread, (nb_digits_read _ _ Hread).
    eexists. split; [|reflexivity]. lia.
  - eapply all_chars_impl; [|exact Hd]. intros a Ha. now rewrite digit_not_int_space.
Qed.

(** [int] accepts every non-empty string of at most 4300 digits, with a
    value that is not negative. *)
Lemma py_int_numeral s :
  short_numeral s = true -> exists k, py_int s = Ok k /\ (0 <= k)%Z.
Proof.
  unfold short_numeral. intros [Hn Hl]%andb_true_iff.
  destruct (py_int_numeral_run s Hn) as (k & Hk & ->). exists k. split; [|exact Hk].
  apply Z.leb_le in Hl.
  destruct (Z.ltb_spec int_max_str_digits (Z.of_nat (String.length s))); [lia | reflexivity].
Qed.

Lemma py_int_numeral_pos s k : is_numeral s = true -> py_int s = Ok k -> (0 <= k)%Z.
Proof.
  intros Hn. destruct (py_int_numeral_run s Hn) as (k' & Hk & ->).
  destruct (_ <? _)%Z; [discriminate|]. now intros [= <-].
Qed.

Lemma numeral_accepted s : short_numeral s = true -> int_accepts s = true.
Proof. intros H. unfold int_accepts. now destruct (py_int_numeral s H) as (k & -> & _). Qed.

(** A non-empty string of more than 4300 digits is rejected. *)
Lemma long_numeral_rejected s :
  is_numeral s = true -> short_numeral s = false -> py_int s = Raise ValueError.
Proof.
  intros Hn Hs. destruct (py_int_numeral_run s Hn) as (k & _ & ->).
  unfold short_numeral in Hs. rewrite Hn in Hs. cbn [andb] in Hs.
  apply Z.leb_gt in Hs.
  destruct (Z.ltb_spec int_max_str_digits (Z.of_nat (String.length s))); [reflexivity | lia].
Qed.

(** *** [max] *)

Lemma py_max_ge x l : (x <= py_max x l)%Z /\ Forall (fun y => (y <= py_max x l)%Z) l.
Proof.
  unfold py_max. revert x. induction l as [|y l IH]; simpl; intros x.
  - split; [lia | constructor].
  - destruct (IH (Z.max x y)) as [H1 H2]. split; [lia|].
    constructor; [lia | exact H2].
Qed.

Lemma py_max_in x l : py_max x l ∈ x :: l.
Proof.
  unfold py_max. revert x. induction l as [|y l IH]; simpl; intros x.
  - left.
  - specialize (IH (Z.max x y)).
    apply elem_of_cons in IH as [IH | IH].
    + rewrite IH. destruct (Z.max_spec x y) as [[_ ->] | [_ ->]]; [right; left | left].
    + right. right. exact IH.
Qed.

(** *** Floats *)

(** A price above zero passes the guard [price <= 0]. *)
Lemma positive_not_le0 (v : float) : (0 <? v)%float = true -> (v <=? 0)%float = false.
Proof.
  rewrite ltb_spec, leb_spec. unfold SFltb, SFleb, SFcompare.
  change (Prim2SF 0) with (S754_zero false).
  destruct (Prim2SF v) as [ | [] | | [] ]; simpl; congruence.
Qed.

(** ** Lemmas on the functions *)

(** *** Generators and comprehensions *)

Lemma find_None_iff {A} (f : A -> bool) (l : list A) :
  List.find f l = None <-> forall x, x ∈ l -> f x = false.
Proof.
  induction l as [|y l IH]; simpl.
  - split; [intros _ x Hx; inversion Hx | reflexivity].
  - destruct (f y) eqn:E.
    + split; [discriminate|]. intros H. rewrite H in E; [discriminate | left].
    + rewrite IH. split.
      * intros H x [-> | Hx]%elem_of_cons; auto.
      * intros H x Hx. apply H. now right.
Qed.

Lemma find_Some_iff {A} (f : A -> bool) (l : list A) (x : A) :
  List.find f l = Some x <->
  exists pre post, l = pre ++ x :: post /\ f x = true /\ forall y, y ∈ pre -> f y = false.
Proof.
  induction l as [|y l IH]; simpl.
  - split; [discriminate|]. intros (pre & post & H & _). now destruct pre.
  - destruct (f y) eqn:E.
    + split.
      * intros [= ->]. exists [], l. repeat split; [exact E|]. intros z Hz. inversion Hz.
      * intros (pre & post & H & Hx & Hpre). destruct pre as [|z pre]; simpl in H.
        -- now inversion H.
        -- inversion H; subst z. rewrite Hpre in E; [discriminate | left].
    + rewrite IH. split.
      * intros (pre & post & -> & Hx & Hpre). exists (y :: pre), post.
        repeat split; [exact Hx|]. intros z [-> | Hz]%elem_of_cons; auto.
      * intros (pre & post & H & Hx & Hpre). destruct pre as [|z pre]; simpl in H.
        -- inversion H; subst y. congruence.
        -- inversion H; subst. exists pre, post. repeat split; [exact Hx|].
           intros w Hw. apply Hpre. now right.
Qed.

Lemma rmap_Ok {A B} (f : A -> result B) (l : list A) (ys : list B) :
  rmap f l = Ok ys <-> Forall2 (fun x y => f x = Ok y) l ys.
Proof.
  revert ys. induction l as [|x l IH]; simpl; intros ys.
  - split; [intros [= <-]; constructor | intros H; now inversion H].
  - destruct (f x) as [y|e] eqn:E; simpl.
    + destruct (rmap f l) as [ys'|e] eqn:E'; simpl.
      * split.
        -- intros [= <-]. constructor; [exact E | now apply IH].
        -- intros H. inversion H as [|? y' ? ys'' Hy Hys]; subst.
           apply IH in Hys. congruence.
      * split; [discriminate|]. intros H. inversion H as [|? y' ? ys'' Hy Hys]; subst.
        apply IH in Hys. discriminate.
    + split; [discriminate|]. intros H. inversion H; congruence.
Qed.

Lemma rmap_total {A B} (f : A -> result B) (l : list A) :
  (exists ys, rmap f l = Ok ys) <-> Forall (fun x => exists y, f x = Ok y) l.
Proof.
  induction l as [|x l IH]; simpl.
  - split; [constructor | eauto].
  - split.
    + intros [ys H]. destruct (f x) as [y|e] eqn:E; [|discriminate]. simpl in H.
      destruct (rmap f l) as [ys'|e] eqn:E'; [|discriminate].
      constructor; [eauto | apply IH; eauto].
    + intros H. inversion H as [|? ? [y Hy] Hl]; subst.
      apply IH in Hl as [ys ->]. rewrite Hy. simpl. eauto.
Qed.

(** The first exception of a comprehension is one of its elements'. *)
Lemma rmap_Raise {A B} (f : A -> result B) (l : list A) (e : exn) :
  rmap f l = Raise e -> exists x, x ∈ l /\ f x = Raise e.
Proof.
  induction l as [|x l IH]; simpl; [discriminate|].
  destruct (f x) as [y|e'] eqn:E; simpl.
  - destruct (rmap f l) as [ys'|e''] eqn:E'; simpl; [discriminate|].
    intros [= ->]. destruct IH as (z & Hz & Hf); [reflexivity|].
    exists z. split; [now right | exact Hf].
  - intros [= ->]. exists x. split; [left | exact E].
Qed.

Lemma rmap_filter_map {A B C} (g : B -> result C) (h : A -> B) (P : B -> bool) (l : list A) :
  rmap (fun x => g (h x)) (List.filter (fun x => P (h x)) l)
  = rmap g (List.filter P (h <$> l)).
Proof.
  induction l as [|x l IH]; simpl; [reflexivity|].
  destruct (P (h x)); simpl; now rewrite IH.
Qed.

Lemma py_int_raises s e : py_int s = Raise e -> e = ValueError.
Proof.
  unfold py_int.
  destruct (match int_strip s with
            | EmptyString => _ | String c r => _ end) as [neg body].
  destruct (int_digits false body) as [d|]; [|congruence].
  destruct (_ <? _)%Z; [congruence | discriminate].
Qed.

(** *** [find_product] and [get_product_by_name] *)

Lemma find_product_None σ code :
  find_product σ code = None <->
  forall l, l ∈ inventory σ -> item_code (deref σ l) <> normalise code.
Proof.
  unfold find_product. rewrite find_None_iff. unfold normalise.
  split; intros H l Hl; specialize (H l Hl).
  - now apply bool_decide_eq_false in H.
  - now apply bool_decide_eq_false.
Qed.

Lemma find_product_Some σ code l :
  find_product σ code = Some l <->
  exists pre post,
    inventory σ = pre ++ l :: post /\
    item_code (deref σ l) = normalise code /\
    forall l', l' ∈ pre -> item_code (deref σ l') <> normalise code.
Proof.
  unfold find_product. rewrite find_Some_iff. unfold normalise.
  split; intros (pre & post & Hinv & Hl & Hpre); exists pre, post.
  - apply bool_decide_eq_true in Hl. repeat split; [exact Hinv | exact Hl|].
    intros l' Hl'. specialize (Hpre l' Hl'). now apply bool_decide_eq_false in Hpre.
  - repeat split; [exact Hinv | now apply bool_decide_eq_true|].
    intros l' Hl'. apply bool_decide_eq_false. now apply Hpre.
Qed.

Lemma find_product_elem σ code l :
  find_product σ code = Some l ->
  l ∈ inventory σ /\ item_code (deref σ l) = normalise code.
Proof.
  intros (pre & post & -> & H & _)%find_product_Some. split; [|exact H].
  apply elem_of_app. right. left.
Qed.

Lemma get_product_by_name_None σ n :
  get_product_by_name σ n = None <->
  forall l, l ∈ inventory σ -> ~ eq_ignore_case (name (deref σ l)) n.
Proof.
  unfold get_product_by_name, eq_ignore_case. rewrite find_None_iff.
  split; intros H l Hl; specialize (H l Hl).
  - now apply bool_decide_eq_false in H.
  - now apply bool_decide_eq_false.
Qed.

(** *** [generate_item_code] *)

Lemma rmap_fmap {A B C} (g : B -> result C) (h : A -> B) (l : list A) :
  rmap (fun x => g (h x)) l = rmap g (h <$> l).
Proof. induction l as [|x l IH]; simpl; [reflexivity|]. now rewrite IH. Qed.

Lemma elem_of_suffixes σ s :
  s ∈ suffixes σ <->
  exists l, l ∈ inventory σ /\
    startswith "ITM" (item_code (deref σ l)) = true /\
    s = slice_from 3 (item_code (deref σ l)).
Proof.
  unfold suffixes, codes, products. rewrite list_elem_of_fmap. split.
  - intros (c & -> & Hc). apply list_elem_of_In, filter_In in Hc as [Hc Hp].
    apply list_elem_of_In in Hc. rewrite <- list_fmap_compose in Hc.
    apply list_elem_of_fmap in Hc as (l & -> & Hl). eauto.
  - intros (l & Hl & Hp & ->). eexists. split; [reflexivity|].
    apply list_elem_of_In, filter_In. split; [|exact Hp].
    apply list_elem_of_In. rewrite <- list_fmap_compose.
    apply list_elem_of_fmap. eauto.
Qed.

Lemma suffixes_empty σ : inventory σ = [] -> suffixes σ = [].
Proof. unfold suffixes, codes, products. now intros ->. Qed.

(** The comprehension of [generate_item_code], over the suffixes. *)
Lemma generate_item_code_unfold σ :
  generate_item_code σ =
  match inventory σ with
  | [] => Ok "ITM001"
  | _ =>
      rbind (rmap py_int (suffixes σ))
        (fun codes =>
           rbind (format_03d
                    match codes with
                    | c :: cs => (py_max c cs + 1)%Z
                    | [] => 1%Z
                    end)
                 (fun t => Ok ("ITM" +:+ t)))
  end.
Proof.
  unfold generate_item_code, suffixes, codes.
  destruct (inventory σ); [reflexivity|].
  rewrite (rmap_filter_map (fun c => py_int (slice_from 3 c)) item_code (startswith "ITM")).
  now rewrite (rmap_fmap py_int (slice_from 3)).
Qed.

Lemma parsable_Forall σ :
  parsable σ = true <-> Forall (fun s => exists k, py_int s = Ok k) (suffixes σ).
Proof.
  unfold parsable. rewrite forallb_forall, Forall_forall.
  split; intros H s Hs.
  - apply list_elem_of_In, H in Hs. unfold int_accepts in Hs.
    destruct (py_int s); [eauto | discriminate].
  - apply list_elem_of_In, H in Hs as [k Hk]. unfold int_accepts. now rewrite Hk.
Qed.

Lemma short_numbered_parsable σ : short_numbered σ = true -> parsable σ = true.
Proof.
  unfold short_numbered, parsable. rewrite !forallb_forall.
  intros H s Hs. apply numeral_accepted, H, Hs.
Qed.

(** With numerals as suffixes, [int] accepts them all exactly when none
    has more than 4300 digits. *)
Lemma numbered_parsable σ :
  numbered σ = true -> (parsable σ = true <-> short_numbered σ = true).
Proof.
  intros Hn. split; [|apply short_numbered_parsable].
  unfold numbered, parsable, short_numbered in *. rewrite !forallb_forall in *.
  intros Hp s Hs. destruct (short_numeral s) eqn:E; [reflexivity|].
  specialize (Hp s Hs). unfold int_accepts in Hp.
  now rewrite (long_numeral_rejected s (Hn s Hs) E) in Hp.
Qed.

Lemma rmap_py_int_accepted (l : list string) :
  forallb int_accepts l = true ->
  rmap py_int l
  = Ok (omap (fun s => match py_int s with Ok k => Some k | Raise _ => None end) l).
Proof.
  induction l as [|s l IH]; simpl; [reflexivity|].
  intros [Hs Hl]%andb_true_iff. rewrite (IH Hl). unfold int_accepts in Hs.
  destruct (py_int s); [reflexivity | discriminate].
Qed.

Lemma elem_of_numbers σ k :
  k ∈ numbers σ <-> exists s, s ∈ suffixes σ /\ py_int s = Ok k.
Proof.
  unfold numbers. rewrite list_elem_of_omap. split.
  - intros (s & Hs & H). exists s. split; [exact Hs|].
    destruct (py_int s); congruence.
  - intros (s & Hs & H). exists s. split; [exact Hs|]. now rewrite H.
Qed.

(** The next number is unique. *)
Lemma next_number_unique σ k k' : next_number σ k -> next_number σ k' -> k = k'.
Proof.
  intros [[Hn ->] | (m & [Hm Hmax] & ->)] [[Hn' ->] | (m' & [Hm' Hmax'] & ->)].
  - reflexivity.
  - rewrite Hn in Hm'. inversion Hm'.
  - rewrite Hn' in Hm. inversion Hm.
  - specialize (Hmax _ Hm'). specialize (Hmax' _ Hm). lia.
Qed.

(** The next number as the code computes it. *)
Lemma next_number_computed σ :
  next_number σ match numbers σ with
                | c :: cs => (py_max c cs + 1)%Z
                | [] => 1%Z
                end.
Proof.
  unfold next_number, max_number. destruct (numbers σ) as [|c cs].
  - left. split; reflexivity.
  - right. exists (py_max c cs). split; [|reflexivity]. split; [apply py_max_in|].
    destruct (py_max_ge c cs) as [Hc Hcs]. rewrite Forall_forall in Hcs.
    intros j [-> | Hj]%elem_of_cons; auto.
Qed.

Lemma next_fits_computed σ :
  next_fits σ <->
  within_limit match numbers σ with
               | c :: cs => (py_max c cs + 1)%Z
               | [] => 1%Z
               end = true.
Proof.
  unfold next_fits. split.
  - intros H. apply H, next_number_computed.
  - intros H k Hk. now rewrite (next_number_unique σ k _ Hk (next_number_computed σ)).
Qed.

(** What [generate_item_code] does on a non-empty inventory whose
    suffixes [int] accepts. *)
Lemma generate_item_code_parsable σ :
  parsable σ = true ->
  exists k, next_number σ k /\
    generate_item_code σ = rbind (format_03d k) (fun t => Ok ("ITM" +:+ t)).
Proof.
  intros Hp. eexists. split; [apply next_number_computed|].
  rewrite generate_item_code_unfold.
  destruct (inventory σ) as [|l0 inv] eqn:Einv.
  - unfold numbers. now rewrite (suffixes_empty σ Einv).
  - unfold parsable in Hp. now rewrite (rmap_py_int_accepted _ Hp).
Qed.

(** When [int] accepts every suffix and the next number can be written,
    the new code is [ITM] followed by the next number of the sequence. *)
Lemma generate_item_code_Ok σ :
  parsable σ = true -> next_fits σ ->
  exists k, next_number σ k /\ within_limit k = true /\
    generate_item_code σ = Ok ("ITM" +:+ text_03d k).
Proof.
  intros Hp Hfit. destruct (generate_item_code_parsable σ Hp) as (k & Hk & ->).
  exists k. split; [exact Hk|]. split; [now apply Hfit|].
  unfold format_03d. now rewrite (Hfit k Hk).
Qed.

(** When [int] rejects a suffix, or the next number cannot be written,
    [generate_item_code] raises [ValueError]. *)
Lemma generate_item_code_Raise σ :
  parsable σ = false \/ ~ next_fits σ -> generate_item_code σ = Raise ValueError.
Proof.
  intros H. destruct (parsable σ) eqn:Hp.
  - destruct H as [H | H]; [discriminate|].
    destruct (generate_item_code_parsable σ Hp) as (k & Hk & ->).
    unfold format_03d. destruct (within_limit k) eqn:E; [|reflexivity].
    exfalso. apply H. intros k' Hk'. now rewrite (next_number_unique σ k' k Hk' Hk).
  - rewrite generate_item_code_unfold.
    destruct (inventory σ) as [|l0 inv] eqn:Einv.
    + unfold parsable in Hp. now rewrite (suffixes_empty σ Einv) in Hp.
    + destruct (rmap py_int (suffixes σ)) as [ys|e] eqn:E; simpl.
      * exfalso. assert (parsable σ = true) as Ht; [|congruence].
        apply parsable_Forall, rmap_total. eauto.
      * apply rmap_Raise in E as (s & _ & Hs). now rewrite (py_int_raises _ _ Hs).
Qed.

(** [generate_item_code] returns in that case only, and raises nothing
    but [ValueError]. *)
Lemma generate_item_code_returns σ code :
  generate_item_code σ = Ok code -> parsable σ = true /\ next_fits σ.
Proof.
  intros H. destruct (parsable σ) eqn:Hp.
  - split; [reflexivity|]. intros k Hk.
    destruct (within_limit k) eqn:E; [reflexivity|].
    rewrite generate_item_code_Raise in H; [discriminate|]. right.
    intros Hfit. rewrite (Hfit k Hk) in E. discriminate E.
  - rewrite generate_item_code_Raise in H; [discriminate | now left].
Qed.

Lemma generate_item_code_raises σ e :
  generate_item_code σ = Raise e -> e = ValueError.
Proof.
  intros H. destruct (parsable σ) eqn:Hp.
  - destruct (generate_item_code_parsable σ Hp) as (k & Hk & Hgen).
    rewrite Hgen in H. unfold format_03d in H.
    destruct (within_limit k); [discriminate H | now injection H].
  - rewrite generate_item_code_Raise in H; [now injection H | now left].
Qed.

Lemma startswith_ITM x : startswith "ITM" ("ITM" +:+ x) = true.
Proof. unfold startswith. simpl. now destruct x. Qed.

(** The next number's code is the code of no stored product. *)
Lemma next_code_fresh σ k l :
  next_number σ k -> within_limit k = true -> l ∈ inventory σ ->
  item_code (deref σ l) <> "ITM" +:+ text_03d k.
Proof.
  intros Hk Hfit Hl Heq.
  assert (k ∈ numbers σ) as Hs.
  { apply elem_of_numbers. exists (text_03d k). split; [|now apply py_int_text].
    apply elem_of_suffixes. exists l. rewrite Heq. split; [exact Hl|].
    split; [apply startswith_ITM | reflexivity]. }
  destruct Hk as [[Hnil _] | (m & [_ Hmax] & ->)].
  - rewrite Hnil in Hs. inversion Hs.
  - specialize (Hmax _ Hs). lia.
Qed.

(** *** Objects and the heap *)

Lemma deref_insert σ (h : gmap loc Product) l p :
  deref (set_heap (<[l := p]> h) σ) l = p.
Proof. unfold deref. cbn. apply lookup_total_insert_eq. Qed.

Lemma fresh_unallocated σ : heap σ !! fresh (dom (heap σ)) = None.
Proof. apply not_elem_of_dom, is_fresh. Qed.

(** ** The properties of the specification *)

(** *** Adding a product *)

(** C2. [add_product] with a price that is not above zero, a negative
    stock, or a name that some stored product already has (letter case
    ignored) returns [None], raises nothing, and leaves the state, the
    inventory included, as it was. *)
Theorem add_product_rejects σ n pr st :
  (pr <=? 0)%float = true ∨ (st < 0)%Z ∨
    (∃ l, l ∈ inventory σ ∧ eq_ignore_case (name (deref σ l)) n) ->
  add_product n pr st σ = Ret None σ.
Proof.
  intros H. unfold add_product.
  destruct ((pr <=? 0)%float || (st <? 0)%Z) eqn:Eg; [reflexivity|].
  apply orb_false_iff in Eg as [Epr Est]. apply Z.ltb_ge in Est.
  destruct H as [H | [H | (l & Hl & Hn)]]; [congruence | lia |].
  run. destruct (get_product_by_name σ n) eqn:E; [reflexivity|].
  exfalso. exact (proj1 (get_product_by_name_None σ n) E l Hl Hn).
Qed.

(** With arguments that pass the checks, [add_product] asks for a code
    and either stores a new object under it or raises what
    [generate_item_code] raises. *)
Lemma add_product_run σ n pr st :
  (pr <=? 0)%float = false -> (0 <= st)%Z -> get_product_by_name σ n = None ->
  add_product n pr st σ =
  match generate_item_code σ with
  | Ok code =>
      let l := fresh (dom (heap σ)) in
      Ret (Some l)
          (mkState (<[l := mkProduct n pr st code]> (heap σ))
                   (inventory σ ++ [l]) (file σ) (writable σ))
  | Raise e => Throw e σ
  end.
Proof.
  intros Hpr Hst Hname. unfold add_product. rewrite Hpr.
  apply Z.ltb_ge in Hst. rewrite Hst. cbn [orb]. run. rewrite Hname.
  now destruct (generate_item_code σ).
Qed.

(** C3, as the code has it. When [int] accepts what follows [ITM] in
    every stored code that starts with it and the next number of the
    sequence has at most 4300 digits, [add_product] with a price above
    zero, a stock that is not negative and a name no stored product has
    (letter case ignored) returns a new object that holds the given
    name, price and stock, appended to the inventory; its code is [ITM]
    followed by the next number of the sequence, written with [03d], and
    is the code of no product stored before. *)
Theorem add_product_accepts σ n pr st :
  parsable σ = true -> next_fits σ ->
  (0 <? pr)%float = true -> (0 <= st)%Z ->
  (∀ l, l ∈ inventory σ → ¬ eq_ignore_case (name (deref σ l)) n) ->
  ∃ l k,
    let code := "ITM" +:+ text_03d k in
    let σ' := mkState (<[l := mkProduct n pr st code]> (heap σ))
                      (inventory σ ++ [l]) (file σ) (writable σ) in
    add_product n pr st σ = Ret (Some l) σ' ∧
    heap σ !! l = None ∧
    deref σ' l = mkProduct n pr st code ∧
    generate_item_code σ = Ok code ∧
    next_number σ k ∧
    py_int (slice_from 3 code) = Ok k ∧
    (∀ l', l' ∈ inventory σ → item_code (deref σ l') ≠ code).
Proof.
  intros Hp Hfit Hpr Hst Hname.
  destruct (generate_item_code_Ok σ Hp Hfit) as (k & Hk & Hlim & Hgen).
  exists (fresh (dom (heap σ))), k. cbn zeta. repeat split.
  - apply get_product_by_name_None in Hname.
    rewrite (add_product_run σ n pr st (positive_not_le0 _ Hpr) Hst Hname).
    now rewrite Hgen.
  - apply fresh_unallocated.
  - unfold deref. cbn [heap]. apply lookup_total_insert_eq.
  - exact Hgen.
  - exact Hk.
  - now apply py_int_text.
  - intros l' Hl'. now apply next_code_fresh.
Qed.

Lemma shop_next_fits : next_fits shop.
Proof. apply next_fits_computed. vm_compute. reflexivity. Qed.

Lemma add_product_accepts_witness :
  ∃ l, add_product "Cap" 1 3 shop
       = Ret (Some l)
             (mkState (<[l := mkProduct "Cap" 1 3 "ITM004"]> (heap shop))
                      (inventory shop ++ [l]) (file shop) (writable shop)).
Proof.
  destruct (add_product_accepts shop "Cap" 1 3) as (l & k & H & _ & _ & _ & Hk & _).
  - reflexivity.
  - exact shop_next_fits.
  - reflexivity.
  - lia.
  - intros l Hl. cbn in Hl.
    repeat (apply elem_of_cons in Hl as [-> | Hl]); [| |inversion Hl];
      unfold eq_ignore_case; vm_compute; discriminate.
  - exists l. cbn zeta in H.
    assert (k = 4%Z) as ->; [|exact H].
    apply (next_number_unique shop); [exact Hk|].
    right. exists 3%Z. split; [|reflexivity]. split.
    + vm_compute. right. left.
    + intros j Hj. vm_compute in Hj.
      repeat (apply elem_of_cons in Hj as [-> | Hj]); [lia | lia | inversion Hj].
Defined.

(** C3 as stated fails: on an inventory with the code [ITMx] a valid
    product with a new name is not added; [add_product] raises. *)
Lemma add_product_raises_on_odd_code :
  (0 <? 1)%float = true ∧ (0 <= 3)%Z ∧
  (∀ l, l ∈ inventory odd_shop → ¬ eq_ignore_case (name (deref odd_shop l)) "Cap") ∧
  add_product "Cap" 1 3 odd_shop = Throw ValueError odd_shop.
Proof.
  split; [reflexivity | split; [lia | split; [|reflexivity]]].
  intros l Hl. cbn in Hl.
  repeat (apply elem_of_cons in Hl as [-> | Hl]); [|inversion Hl].
  unfold eq_ignore_case. vm_compute. discriminate.
Qed.

Lemma add_product_rejects_witness :
  add_product "PEN" 3 1 shop = Ret None shop.
Proof.
  apply add_product_rejects. right. right. exists 0. split.
  - left.
  - reflexivity.
Defined.

(** *** Generating a code *)

Lemma text_03d_width k :
  (0 <= k < 1000)%Z ->
  String.length (text_03d k) = 3 ∧ all_chars isdigit (text_03d k) = true.
Proof.
  intros Hk.
  assert (forallb (fun i => let t := text_03d (Z.of_nat i) in
                            Nat.eqb (String.length t) 3 && all_chars isdigit t)
                  (seq 0 1000) = true) as H by (vm_compute; reflexivity).
  rewrite forallb_forall in H.
  assert (In (Z.to_nat k) (seq 0 1000)) as Hin by (apply in_seq; lia).
  apply H in Hin. cbn zeta in Hin. rewrite Z2Nat.id in Hin by lia.
  apply andb_true_iff in Hin as [H1 H2].
  split; [now apply Nat.eqb_eq | exact H2].
Qed.

(** C4, as the code has it. When [int] accepts what follows [ITM] in
    every stored code that starts with it and the next number has at
    most 4300 digits, [generate_item_code] returns [ITM001] if no stored
    code starts with [ITM] (so on the empty inventory), and otherwise
    [ITM] followed by the largest of the numbers plus one, written with
    [03d]: three digits up to 999. On the codes [ITM001] and [ITM003]
    it returns [ITM004]. *)
Theorem generate_item_code_sequence σ :
  parsable σ = true -> next_fits σ ->
  (inventory σ = [] → generate_item_code σ = Ok "ITM001") ∧
  (numbers σ = [] → generate_item_code σ = Ok "ITM001") ∧
  (∀ m, max_number σ m →
     generate_item_code σ = Ok ("ITM" +:+ text_03d (m + 1)) ∧
     py_int (text_03d (m + 1)) = Ok (m + 1)%Z ∧
     ((0 <= m + 1 < 1000)%Z →
      String.length (text_03d (m + 1)) = 3 ∧
      all_chars isdigit (text_03d (m + 1)) = true)) ∧
  (codes σ = ["ITM001"; "ITM003"] → generate_item_code σ = Ok "ITM004").
Proof.
  intros Hp Hfit. destruct (generate_item_code_Ok σ Hp Hfit) as (k & Hk & Hlim & Hgen).
  split; [|split; [|split]].
  - intros Hinv. unfold generate_item_code. now rewrite Hinv.
  - intros Hn. rewrite Hgen.
    now rewrite (next_number_unique σ k 1 Hk (or_introl (conj Hn eq_refl))).
  - intros m Hm.
    assert (k = (m + 1)%Z) as Hkm.
    { apply (next_number_unique σ); [exact Hk|]. right. eauto. }
    rewrite Hgen, Hkm in *. split; [reflexivity|]. split.
    + now apply py_int_text.
    + apply text_03d_width.
  - intros Hc. rewrite generate_item_code_unfold.
    destruct (inventory σ) as [|l0 inv] eqn:Einv.
    + unfold codes, products in Hc. rewrite Einv in Hc. discriminate Hc.
    + unfold suffixes. rewrite Hc. reflexivity.
Qed.

Lemma generate_item_code_sequence_witness :
  generate_item_code shop = Ok "ITM004".
Proof.
  apply (generate_item_code_sequence shop); [reflexivity | exact shop_next_fits | reflexivity].
Defined.

(** C4 as stated fails. In [mixed_shop] the codes are [ITM001] and
    [ITMx]: the largest number among them is 1, yet no [ITM002] comes
    back. In [odd_shop] no code carries a number, yet no [ITM001] comes
    back. Both calls raise [ValueError]. *)
Lemma generate_item_code_raises_on_odd_code :
  (codes mixed_shop = ["ITM001"; "ITMx"] ∧
   max_number mixed_shop 1 ∧
   generate_item_code mixed_shop = Raise ValueError) ∧
  (codes odd_shop = ["ITMx"] ∧
   numbers odd_shop = [] ∧
   generate_item_code odd_shop = Raise ValueError).
Proof.
  repeat split.
  - vm_compute. left.
  - intros j Hj. vm_compute in Hj.
    repeat (apply elem_of_cons in Hj as [-> | Hj]); [lia | inversion Hj].
Qed.

(** C9, as the code has it. [int] accepts every non-empty string of at
    most 4300 decimal digits and no longer one, so with such suffixes
    the conversions of [generate_item_code] do not fail, and the
    function returns when the next number has at most 4300 digits too. It returns exactly when
    [int] accepts what follows [ITM] in every stored code that starts
    with it and the next number can be written, and raises [ValueError]
    otherwise; [add_product] with valid arguments and a new name then
    returns a product, or raises likewise. The codes [ITMx] and [ITM]
    are not accepted: on [odd_shop] and [bare_shop] both functions
    raise. *)
Theorem generate_item_code_total :
  (∀ σ, short_numbered σ = true → parsable σ = true) ∧
  (∀ σ, numbered σ = true → (parsable σ = true ↔ short_numbered σ = true)) ∧
  (∀ σ, short_numbered σ = true → next_fits σ →
        ∃ code, generate_item_code σ = Ok code) ∧
  (∀ σ, (∃ code, generate_item_code σ = Ok code) ↔ parsable σ = true ∧ next_fits σ) ∧
  (∀ σ, parsable σ = false ∨ ¬ next_fits σ → generate_item_code σ = Raise ValueError) ∧
  (∀ σ n pr st,
     (0 <? pr)%float = true → (0 <= st)%Z → get_product_by_name σ n = None →
     (short_numbered σ = true → next_fits σ →
      ∃ l σ', add_product n pr st σ = Ret (Some l) σ') ∧
     (parsable σ = false ∨ ¬ next_fits σ →
      add_product n pr st σ = Throw ValueError σ)) ∧
  (inventory odd_shop ≠ [] ∧ codes odd_shop = ["ITMx"] ∧
   generate_item_code odd_shop = Raise ValueError ∧
   add_product "Cap" 1 3 odd_shop = Throw ValueError odd_shop) ∧
  (inventory bare_shop ≠ [] ∧ codes bare_shop = ["ITM"] ∧
   generate_item_code bare_shop = Raise ValueError ∧
   add_product "Cap" 1 3 bare_shop = Throw ValueError bare_shop).
Proof.
  split; [|split; [|split; [|split; [|split; [|split; [|split]]]]]].
  - apply short_numbered_parsable.
  - apply numbered_parsable.
  - intros σ Hn Hfit.
    destruct (generate_item_code_Ok σ (short_numbered_parsable σ Hn) Hfit) as (k & _ & _ & H).
    eauto.
  - intros σ. split.
    + intros [code H]. now apply (generate_item_code_returns σ code).
    + intros [Hp Hfit]. destruct (generate_item_code_Ok σ Hp Hfit) as (k & _ & _ & H). eauto.
  - apply generate_item_code_Raise.
  - intros σ n pr st Hpr Hst Hname. split.
    + intros Hn Hfit.
      destruct (generate_item_code_Ok σ (short_numbered_parsable σ Hn) Hfit)
        as (k & _ & _ & Hgen).
      rewrite (add_product_run σ n pr st (positive_not_le0 _ Hpr) Hst Hname), Hgen.
      eauto.
    + intros Hp.
      rewrite (add_product_run σ n pr st (positive_not_le0 _ Hpr) Hst Hname).
      now rewrite (generate_item_code_Raise σ Hp).
  - repeat split; discriminate.
  - repeat split; discriminate.
Qed.

Lemma generate_item_code_total_witness :
  ∃ code, generate_item_code shop = Ok code.
Proof.
  apply (proj1 (proj2 (proj2 generate_item_code_total)) shop);
    [reflexivity | exact shop_next_fits].
Defined.

(** C9 as stated fails: a non-empty decimal numeral after [ITM] is not
    enough. In [long_shop] the numeral has 4301 digits and [int] raises;
    in [last_shop] it has 4300 nines, [int] accepts it, and the next
    number cannot be written. In both, [generate_item_code] and
    [add_product] raise [ValueError]. *)
Lemma generate_item_code_raises_on_long_code :
  (numbered long_shop = true ∧
   parsable long_shop = false ∧
   generate_item_code long_shop = Raise ValueError ∧
   add_product "Cap" 1 3 long_shop = Throw ValueError long_shop) ∧
  (numbered last_shop = true ∧
   parsable last_shop = true ∧
   generate_item_code last_shop = Raise ValueError ∧
   add_product "Cap" 1 3 last_shop = Throw ValueError last_shop).
Proof.
  split; (split; [|split; [|split]]); vm_compute; reflexivity.
Qed.

(** *** Looking a product up *)

(** A stored code without a lowercase letter is the normalised query
    exactly when it is the trimmed query with letter case ignored. The
    case mappings of the model are those of ASCII text, to which the
    statements that use this restrict. *)
Lemma normalise_ignore_case c q :
  has_lower c = false ->
  (c = normalise q ↔ eq_ignore_case (strip q) c).
Proof.
  intros Hc. unfold normalise, eq_ignore_case. rewrite <- upper_strip. split.
  - intros ->. now rewrite lower_upper.
  - intros H. apply (f_equal upper) in H. rewrite !upper_lower in H.
    now rewrite (upper_id _ Hc) in H.
Qed.

(** C5, as the code has it. [find_product] uppercases and trims the
    query and returns the first product whose stored code is exactly
    that string, or [None]. For ASCII text, on an inventory whose stored
    codes have no lowercase letter, this is the first product whose code
    equals the trimmed query when letter case is ignored, and [None]
    when no product does; the queries [itm001] and [ ITM001 ] both find
    a stored [ITM001]. *)
Theorem find_product_ignore_case σ code :
  (∀ l, find_product σ code = Some l ↔
     ∃ pre post,
       inventory σ = pre ++ l :: post ∧
       item_code (deref σ l) = strip (upper code) ∧
       ∀ l', l' ∈ pre → item_code (deref σ l') ≠ strip (upper code)) ∧
  (is_ascii code = true →
   (∀ l, l ∈ inventory σ →
      is_ascii (item_code (deref σ l)) = true ∧
      has_lower (item_code (deref σ l)) = false) →
   (∀ l, find_product σ code = Some l ↔
      ∃ pre post,
        inventory σ = pre ++ l :: post ∧
        eq_ignore_case (strip code) (item_code (deref σ l)) ∧
        ∀ l', l' ∈ pre → ¬ eq_ignore_case (strip code) (item_code (deref σ l'))) ∧
   (find_product σ code = None ↔
      ∀ l, l ∈ inventory σ → ¬ eq_ignore_case (strip code) (item_code (deref σ l)))) ∧
  (∀ l, l ∈ inventory σ → item_code (deref σ l) = "ITM001" →
     ∃ l1 l2,
       find_product σ "itm001" = Some l1 ∧ item_code (deref σ l1) = "ITM001" ∧
       find_product σ " ITM001 " = Some l2 ∧ item_code (deref σ l2) = "ITM001").
Proof.
  split; [intros l; apply find_product_Some|]. split.
  - intros _ Hup.
    assert (∀ l, l ∈ inventory σ →
              (item_code (deref σ l) = normalise code
               ↔ eq_ignore_case (strip code) (item_code (deref σ l)))) as Heq.
    { intros l Hl. apply normalise_ignore_case, Hup, Hl. }
    split.
    + intros l. rewrite find_product_Some.
      split; intros (pre & post & Hinv & Hl & Hpre); exists pre, post.
      * split; [exact Hinv|]. split.
        -- apply Heq; [|exact Hl]. rewrite Hinv, elem_of_app. right. left.
        -- intros l' Hl' Hc. apply (Hpre l' Hl'). apply Heq; [|exact Hc].
           rewrite Hinv, elem_of_app. now left.
      * split; [exact Hinv|]. split.
        -- apply Heq; [|exact Hl]. rewrite Hinv, elem_of_app. right. left.
        -- intros l' Hl' Hc. apply (Hpre l' Hl'). apply Heq; [|exact Hc].
           rewrite Hinv, elem_of_app. now left.
    + rewrite find_product_None.
      split; intros H l Hl Hc; apply (H l Hl); now apply Heq.
  - intros l Hl Hc.
    assert (∀ q, normalise q = "ITM001" →
              ∃ l', find_product σ q = Some l' ∧ item_code (deref σ l') = "ITM001") as Hq.
    { intros q Hn. destruct (find_product σ q) as [l'|] eqn:E.
      - exists l'. split; [reflexivity|].
        apply find_product_elem in E as [_ E]. now rewrite E.
      - exfalso. apply (proj1 (find_product_None σ q) E l Hl). now rewrite Hn. }
    destruct (Hq "itm001" eq_refl) as (l1 & H1 & H1').
    destruct (Hq " ITM001 " eq_refl) as (l2 & H2 & H2').
    exists l1, l2. auto.
Qed.

Lemma find_product_ignore_case_witness :
  find_product shop " itm003 " = Some 1.
Proof.
  assert (is_ascii " itm003 " = true) as Hq by reflexivity.
  assert (∀ l, l ∈ inventory shop →
            is_ascii (item_code (deref shop l)) = true ∧
            has_lower (item_code (deref shop l)) = false) as Hup.
  { intros l Hl. cbn in Hl.
    repeat (apply elem_of_cons in Hl as [-> | Hl]); [| |inversion Hl];
      split; reflexivity. }
  apply (proj1 (proj1 (proj2 (find_product_ignore_case shop " itm003 ")) Hq Hup)).
  exists [0], []. split; [reflexivity|]. split; [reflexivity|].
  intros l' Hl'. apply list_elem_of_singleton in Hl' as ->.
  unfold eq_ignore_case. vm_compute. discriminate.
Defined.

(** C5 as stated fails: a product stored under [itm001] equals the query
    [itm001], trimmed and with letter case ignored (even exactly), and
    is not found. *)
Lemma find_product_misses_lowercase :
  0 ∈ inventory lower_shop ∧
  item_code (deref lower_shop 0) = "itm001" ∧
  eq_ignore_case (strip "itm001") (item_code (deref lower_shop 0)) ∧
  find_product lower_shop "itm001" = None.
Proof. split; [left | repeat split]. Qed.

(** *** Updating a product *)


Lemma deref_eq σ σ' l : heap σ' !! l = heap σ !! l -> deref σ' l = deref σ l.
Proof. unfold deref. rewrite !lookup_total_alt. now intros ->. Qed.

Lemma updated_at_refl l0 σ : updated_at l0 σ σ.
Proof. repeat split; auto. Qed.

Lemma updated_at_trans l0 σ1 σ2 σ3 :
  updated_at l0 σ1 σ2 -> updated_at l0 σ2 σ3 -> updated_at l0 σ1 σ3.
Proof.
  intros (Hi & Hf & Hw & Hh & Hd & Hn & Hc) (Hi' & Hf' & Hw' & Hh' & Hd' & Hn' & Hc').
  repeat split; try congruence; auto.
  intros l Hl. rewrite Hh' by exact Hl. now apply Hh.
Qed.

Lemma updated_at_insert l0 σ p :
  name p = name (deref σ l0) -> item_code p = item_code (deref σ l0) ->
  updated_at l0 σ (set_heap (<[l0 := p]> (heap σ)) σ).
Proof.
  intros Hn Hc. unfold updated_at. rewrite deref_insert. cbn.
  repeat split; auto.
  - intros l Hl. now apply lookup_insert_ne.
  - intros l Hl. rewrite lookup_insert. now case_decide.
Qed.

(** Away from [l0] every attribute is as before. *)
Lemma updated_at_other l0 σ σ' l :
  updated_at l0 σ σ' -> l ≠ l0 -> deref σ' l = deref σ l.
Proof. intros (_ & _ & _ & Hh & _) Hl. apply deref_eq. now apply Hh. Qed.

(** Whatever the arguments, [update_product_details] returns. A call
    that finds no product changes nothing and returns [False]; a call
    that finds [l0] makes assignments to [l0] only, none to its stock
    when no stock is given and none to its price when no price is
    given. *)
Lemma update_product_details_writes σ code ns np :
  ∃ b σ',
    update_product_details code ns np σ = Ret b σ' ∧
    (find_product σ code = None → b = false ∧ σ' = σ) ∧
    (∀ l0, find_product σ code = Some l0 →
       updated_at l0 σ σ' ∧
       (ns = None → stock (deref σ' l0) = stock (deref σ l0)) ∧
       (np = None → price (deref σ' l0) = price (deref σ l0))).
Proof.
  unfold update_product_details. run.
  destruct (find_product σ code) as [l0|] eqn:Ef.
  2: { exists false, σ. repeat split; auto; discriminate. }
  set (p := deref σ l0).
  assert (∀ v, updated_at l0 σ
                 (set_heap (<[l0 := mkProduct (name p) (price p) v (item_code p)]> (heap σ)) σ))
    as Hstock by (intros v; now apply updated_at_insert).
  assert (∀ σ1 w, updated_at l0 σ σ1 →
            updated_at l0 σ
              (set_heap (<[l0 := mkProduct (name (deref σ1 l0)) w (stock (deref σ1 l0))
                                           (item_code (deref σ1 l0))]> (heap σ1)) σ1))
    as Hprice.
  { intros σ1 w H1. eapply updated_at_trans; [exact H1|].
    now apply updated_at_insert. }
  destruct ns as [v|]; [destruct (v <? 0)%Z|];
    (destruct np as [w|]; [destruct (w <=? 0)%float|]);
    unfold assign_stock, assign_price; run;
    (eexists _, _; split; [reflexivity|]; split; [discriminate|]);
    intros ? [= <-]; fold p;
    (split; [first [ apply updated_at_refl
                   | apply Hstock
                   | apply Hprice; first [apply updated_at_refl | apply Hstock] ]|]);
    rewrite ?deref_insert; split; intros; (reflexivity || discriminate).
Qed.



(** C1 fails on the code: with a valid new stock and an invalid new
    price, [update_product_details] returns [False] after it has stored
    the new stock. *)
Lemma update_product_details_half_applied σ code l v w :
  find_product σ code = Some l -> (0 <= v)%Z -> (w <=? 0)%float = true ->
  ∃ σ',
    update_product_details code (Some v) (Some w) σ = Ret false σ' ∧
    stock (deref σ' l) = v ∧ price (deref σ' l) = price (deref σ l).
Proof.
  intros Hf Hv Hw. eexists. unfold update_product_details. run. rewrite Hf.
  apply Z.ltb_ge in Hv. rewrite Hv, Hw. unfold assign_stock. run.
  split; [reflexivity|]. rewrite !deref_insert. split; reflexivity.
Qed.

(** The other cases of C1 hold: an invalid new stock, or an invalid new
    price with no new stock, changes nothing. *)
Lemma update_product_details_invalid σ code v w np :
  (v < 0)%Z -> (w <=? 0)%float = true ->
  update_product_details code (Some v) np σ = Ret false σ ∧
  update_product_details code None (Some w) σ = Ret false σ.
Proof.
  intros Hv Hw. apply Z.ltb_lt in Hv. unfold update_product_details. run.
  destruct (find_product σ code); [|split; reflexivity].
  rewrite Hv, Hw. split; reflexivity.
Qed.

(** The failing input of C1: stock 7 and price 0 for [ITM001], whose
    stock was 5. *)
Theorem update_product_details_partial_write :
  products shop = [mkProduct "Pen" 10 5 "ITM001"; ink] ∧
  update_product_details "ITM001" (Some 7%Z) (Some 0%float) shop
  = Ret false (state_of [mkProduct "Pen" 10 7 "ITM001"; ink]).
Proof. split; vm_compute; reflexivity. Qed.

(** *** Deleting a product *)

Lemma remove_first_split l pre post :
  l ∉ pre -> remove_first l (pre ++ l :: post) = Some (pre ++ post).
Proof.
  induction pre as [|y pre IH]; simpl; intros Hl.
  - now rewrite decide_True.
  - apply not_elem_of_cons in Hl as [Hy Hl].
    rewrite decide_False by congruence. now rewrite IH.
Qed.

(** What [delete_product] does, by the result of [find_product]. *)
Lemma delete_product_run σ code :
  (find_product σ code = None ∧ delete_product code σ = Ret false σ) ∨
  (∃ l pre post,
     find_product σ code = Some l ∧
     inventory σ = pre ++ l :: post ∧ (l ∉ pre) ∧
     delete_product code σ
     = Ret true (mkState (heap σ) (pre ++ post) (file σ) (writable σ))).
Proof.
  unfold delete_product. run.
  destruct (find_product σ code) as [l|] eqn:Ef; [right | now left].
  pose proof Ef as (pre & post & Hinv & Hl & Hpre)%find_product_Some.
  assert (l ∉ pre) as Hnot by (intros Hin; now apply (Hpre l Hin)).
  exists l, pre, post. repeat split; [exact Hinv | exact Hnot |].
  unfold list_remove. now rewrite Hinv, remove_first_split.
Qed.

(** C8, as the code has it. A product matches when its stored code is
    the uppercased and trimmed query. When no stored product has that
    code, [delete_product] returns [False] and the state is as before.
    When [l] is the first product that has it, [delete_product] returns
    [True], [l] leaves the inventory at that position and nothing else
    changes: the products before and after it stay, in their order, with
    their values. For ASCII text and stored codes without a lowercase
    letter, a product has that code exactly when its code equals the
    trimmed query with letter case ignored. *)
Theorem delete_product_spec σ code :
  ((∀ l, l ∈ inventory σ → item_code (deref σ l) ≠ normalise code) →
   delete_product code σ = Ret false σ) ∧
  (∀ pre l post,
     inventory σ = pre ++ l :: post →
     item_code (deref σ l) = normalise code →
     (∀ l', l' ∈ pre → item_code (deref σ l') ≠ normalise code) →
     delete_product code σ
     = Ret true (mkState (heap σ) (pre ++ post) (file σ) (writable σ))) ∧
  (is_ascii code = true →
   (∀ l, l ∈ inventory σ →
      is_ascii (item_code (deref σ l)) = true ∧
      has_lower (item_code (deref σ l)) = false) →
   ∀ l, l ∈ inventory σ →
     (item_code (deref σ l) = normalise code
      ↔ eq_ignore_case (strip code) (item_code (deref σ l)))).
Proof.
  split; [|split].
  - intros H. apply find_product_None in H.
    destruct (delete_product_run σ code) as [[_ Hd] | (l & ? & ? & Hf & _)];
      [exact Hd | congruence].
  - intros pre l post Hinv Hl Hpre.
    assert (find_product σ code = Some l) as Hf.
    { apply find_product_Some. exists pre, post. auto. }
    assert (l ∉ pre) as Hnot by (intros Hin; now apply (Hpre l Hin)).
    unfold delete_product. run. rewrite Hf. unfold list_remove.
    now rewrite Hinv, remove_first_split.
  - intros _ Hup l Hl. apply normalise_ignore_case, Hup, Hl.
Qed.

Lemma delete_product_spec_witness :
  delete_product "itm003" shop = Ret true (mkState (heap shop) [0] Missing true).
Proof.
  apply (proj1 (proj2 (delete_product_spec shop "itm003")) [0] 1 []).
  - reflexivity.
  - reflexivity.
  - intros l' Hl'. apply list_elem_of_singleton in Hl' as ->. vm_compute. discriminate.
Defined.

(** C8 as stated fails: the only product of [lower_shop] has the code
    [itm001], and [delete_product] with that very code removes nothing
    and returns [False]. *)
Lemma delete_product_misses_lowercase :
  products lower_shop = [mkProduct "Pen" 10 5 "itm001"] ∧
  eq_ignore_case (strip "itm001") (item_code (deref lower_shop 0)) ∧
  delete_product "itm001" lower_shop = Ret false lower_shop.
Proof. split; [|split]; reflexivity. Qed.

(** *** Stored codes that no query reaches *)




(** *** Saving and loading *)

Lemma load_item_to_dict p :
  load_item (to_dict p)
  = Ok (JStr (name p), JFloat (price p), stock p, JStr (item_code p)).
Proof.
  unfold load_item, to_dict, subscript.
  rewrite lookup_insert_eq. cbn [rbind].
  rewrite lookup_insert_ne, lookup_insert_eq by discriminate. cbn [rbind].
  rewrite !lookup_insert_ne, lookup_insert_eq by discriminate. cbn [rbind int_of].
  rewrite !lookup_insert_ne, lookup_insert_eq by discriminate. reflexivity.
Qed.

Lemma load_items_to_dict ps :
  rmap load_item (to_dict <$> ps)
  = Ok ((fun p => (JStr (name p), JFloat (price p), stock p, JStr (item_code p))) <$> ps).
Proof.
  induction ps as [|p ps IH]; [reflexivity|].
  cbn [fmap list_fmap rmap]. rewrite load_item_to_dict. cbn [rbind].
  change (list_fmap _ _ to_dict ps) with (to_dict <$> ps). now rewrite IH.
Qed.

Lemma typed_to_dict ps :
  mapM typed
    ((fun p => (JStr (name p), JFloat (price p), stock p, JStr (item_code p))) <$> ps)
  = Some ps.
Proof.
  apply mapM_Some. induction ps as [|[n pr st c] ps IH]; constructor; [reflexivity | exact IH].
Qed.

(** New objects hold the given values, in order; they are allocated,
    and were not before; the objects that were there keep their values,
    and nothing but the heap changes. *)
Lemma new_Products_run ps σ :
  ∃ ls σ',
    new_Products ps σ = Ret ls σ' ∧
    deref σ' <$> ls = ps ∧
    heap σ ⊆ heap σ' ∧
    inventory σ' = inventory σ ∧ file σ' = file σ ∧ writable σ' = writable σ ∧
    Forall (fun l => heap σ !! l = None ∧ is_Some (heap σ' !! l)) ls.
Proof.
  revert σ. induction ps as [|p ps IH]; intros σ.
  - exists [], σ. repeat (split; [reflexivity|]). constructor.
  - cbn [new_Products]. run. unfold new_Product.
    set (l := fresh (dom (heap σ))).
    set (σ1 := set_heap (<[l:=p]> (heap σ)) σ).
    destruct (IH σ1) as (ls & σ' & Hrun & Hval & Hsub & Hinv & Hfile & Hw & Hnew).
    rewrite Hrun. exists (l :: ls), σ'.
    assert (heap σ !! l = None) as Hl by apply fresh_unallocated.
    assert (heap σ ⊆ heap σ1) as Hsub1 by (now apply insert_subseteq).
    assert (heap σ' !! l = Some p) as Hp.
    { eapply lookup_weaken; [|exact Hsub]. apply lookup_insert_eq. }
    split; [reflexivity|]. split; [|split; [|split; [|split; [|split]]]]; try assumption.
    + cbn [fmap list_fmap]. f_equal; [|exact Hval].
      unfold deref. now apply lookup_total_correct.
    + now transitivity (heap σ1).
    + constructor; [split; [exact Hl | now rewrite Hp]|].
      eapply Forall_impl; [exact Hnew|]. intros l' [Hl' Hl'']. cbn in Hl'.
      split; [|exact Hl'']. eapply lookup_weaken_None; [exact Hl' | exact Hsub1].
Qed.

(** Loading a file that holds the dictionaries of [ps] returns new
    objects with the values of [ps]. *)
Lemma load_inventory_saved σ ps :
  file σ = Holds (JList (to_dict <$> ps)) ->
  ∃ ls σ',
    load_inventory σ = Ret ls σ' ∧
    deref σ' <$> ls = ps ∧
    heap σ ⊆ heap σ' ∧
    inventory σ' = inventory σ ∧ file σ' = file σ ∧ writable σ' = writable σ.
Proof.
  intros Hfile.
  destruct (new_Products_run ps σ) as (ls & σ' & Hrun & Hval & Hsub & Hinv & Hf & Hw & _).
  exists ls, σ'. split; [|auto 6].
  unfold load_inventory. run. rewrite Hfile.
  unfold try_except, read_json. run. rewrite Hfile. cbn [iterate].
  rewrite load_items_to_dict, typed_to_dict. now rewrite Hrun.
Qed.

(** What [json.dump] can write of the program's own records. *)
Lemma dumpable_to_dict p : dumpable (to_dict p) = within_limit (stock p).
Proof.
  assert (∀ (z1 z2 : value) (y : bool),
            dumpable z1 && (dumpable z2 && y) = dumpable z2 && (dumpable z1 && y)) as Hcomm.
  { intros. destruct (dumpable z1), (dumpable z2), y; reflexivity. }
  unfold to_dict. cbn [dumpable].
  rewrite map_fold_insert_L; [|intros; apply Hcomm | reflexivity].
  rewrite map_fold_insert_L; [|intros; apply Hcomm | reflexivity].
  rewrite map_fold_insert_L; [|intros; apply Hcomm | reflexivity].
  rewrite map_fold_insert_L; [|intros; apply Hcomm | reflexivity].
  rewrite map_fold_empty. cbn [dumpable andb]. now rewrite andb_true_r.
Qed.

Lemma dumpable_snapshot ps : dumpable (JList (to_dict <$> ps)) = savable ps.
Proof.
  cbn [dumpable]. unfold savable.
  induction ps as [|p ps IH]; [reflexivity|].
  cbn [fmap list_fmap forallb]. rewrite dumpable_to_dict. f_equal. exact IH.
Qed.

(** [save_inventory], case by case: it writes the records; or it raises
    [ValueError] and leaves a truncated file, when a stock has too many
    digits; or it does nothing, when the file cannot be opened. *)
Lemma save_inventory_run σ :
  save_inventory σ =
  if writable σ then
    if savable (products σ) then Ret tt (set_file (snapshot (products σ)) σ)
    else Throw ValueError (set_file Corrupt σ)
  else Ret tt σ.
Proof.
  unfold save_inventory. run. unfold try_except, write_json.
  rewrite dumpable_snapshot.
  destruct (writable σ); [|reflexivity]. now destruct (savable (products σ)).
Qed.





(** *** References stay valid *)

Lemma wf_updated_at l0 σ σ' : updated_at l0 σ σ' -> wf σ -> wf σ'.
Proof.
  intros (Hinv & _ & _ & _ & Hdom & _) Hwf. unfold wf in *. rewrite Hinv.
  eapply Forall_impl; [exact Hwf|]. exact Hdom.
Qed.

Lemma wf_nil σ : wf (set_inventory [] σ).
Proof. unfold wf. cbn. constructor. Qed.

(** No function of the program leaves a reference to a missing object
    in the inventory: [wf] holds after each call that returns if it held
    before, the object [add_product] returns is not one of the old
    inventory, and the list [load_inventory] returns can take the
    inventory's place. *)
Lemma wf_preserved σ :
  wf σ ->
  (∀ n pr st r σ', add_product n pr st σ = Ret r σ' →
     wf σ' ∧ ∀ l, r = Some l → l ∉ inventory σ) ∧
  (∀ code ns np b σ', update_product_details code ns np σ = Ret b σ' → wf σ') ∧
  (∀ code b σ', delete_product code σ = Ret b σ' → wf σ') ∧
  (∀ u σ', save_inventory σ = Ret u σ' → wf σ') ∧
  (∀ ls σ', load_inventory σ = Ret ls σ' → wf σ' ∧ wf (set_inventory ls σ')).
Proof.
  intros Hwf. split; [|split; [|split; [|split]]].
  - intros n pr st r σ'. unfold add_product.
    destruct ((pr <=? 0)%float || (st <? 0)%Z); [intros [= <- <-]; split; [exact Hwf | discriminate]|].
    run. destruct (get_product_by_name σ n); [intros [= <- <-]; split; [exact Hwf | discriminate]|].
    destruct (generate_item_code σ) as [code|e]; [|discriminate].
    unfold new_Product, list_append. run. intros [= <- <-]. split.
    + unfold wf. cbn. apply Forall_app. split.
      * eapply Forall_impl; [exact Hwf|]. intros l Hl. cbn in Hl.
        rewrite lookup_insert. now case_decide.
      * constructor; [|constructor]. rewrite lookup_insert_eq. eauto.
    + intros l [= <-] Hin. unfold wf in Hwf. rewrite Forall_forall in Hwf.
      apply Hwf in Hin. rewrite fresh_unallocated in Hin. now destruct Hin.
  - intros code ns np b σ' Hrun.
    destruct (update_product_details_writes σ code ns np) as (b' & σ'' & Hrun' & Hnone & Hsome).
    rewrite Hrun in Hrun'. injection Hrun' as <- <-.
    destruct (find_product σ code) as [l0|] eqn:Ef.
    + destruct (Hsome l0 eq_refl) as [Hup _]. now apply (wf_updated_at l0 σ).
    + now destruct (Hnone eq_refl) as [_ ->].
  - intros code b σ' Hrun.
    destruct (delete_product_run σ code) as [[_ Hd] | (l & pre & post & _ & Hinv & _ & Hd)];
      rewrite Hrun in Hd; injection Hd as -> ->; [exact Hwf|].
    unfold wf in *. cbn. rewrite Hinv in Hwf.
    apply Forall_app in Hwf as [Hpre Hpost]. apply Forall_app. split; [exact Hpre|].
    now inversion Hpost.
  - intros u σ'. rewrite save_inventory_run.
    destruct (writable σ); [destruct (savable (products σ))|];
      [| discriminate |]; intros [= <- <-]; exact Hwf.
  - intros ls σ'. unfold load_inventory. run.
    destruct (file σ) eqn:Efile; [intros [= <- <-]; split; [exact Hwf | apply wf_nil]| | | |];
      unfold try_except, read_json; run; rewrite Efile; cbn.
    + intros [= <- <-]. split; [exact Hwf | apply wf_nil].
    + intros [= <- <-]. split; [exact Hwf | apply wf_nil].
    + intros [= <- <-]. split; [exact Hwf | apply wf_nil].
    + destruct (iterate data) as [items|e]; cbn;
        [|destruct e; cbn; try discriminate; intros [= <- <-]; (split; [exact Hwf | apply wf_nil])].
      destruct (rmap load_item items) as [args|e]; cbn;
        [|destruct e; cbn; try discriminate; intros [= <- <-]; (split; [exact Hwf | apply wf_nil])].
      destruct (mapM typed args) as [ps|]; [|discriminate].
      destruct (new_Products_run ps σ) as (ls' & σ'' & Hrun & _ & Hsub & Hinv & _ & _ & Hnew).
      rewrite Hrun. intros [= <- <-]. split.
      * unfold wf in *. rewrite Hinv. eapply Forall_impl; [exact Hwf|].
        intros l [x Hx]. exists x. eapply lookup_weaken; [exact Hx | exact Hsub].
      * unfold wf. cbn. eapply Forall_impl; [exact Hnew|]. now intros l [_ Hl].
Qed.

(** ** Further properties of the code *)

(** *** Loading *)

Lemma new_Products_returns ps σ : ∃ ls σ', new_Products ps σ = Ret ls σ'.
Proof. destruct (new_Products_run ps σ) as (ls & σ' & H & _). eauto. Qed.

(** [load_inventory], branch by branch. *)
Lemma load_inventory_unfold σ :
  load_inventory σ =
  match file σ with
  | Holds data =>
      match rbind (iterate data) (rmap load_item) with
      | Ok args =>
          match mapM typed args with
          | Some ps => new_Products ps σ
          | None => IllTyped
          end
      | Raise e => if load_caught e then Ret [] σ else Throw e σ
      end
  | _ => Ret [] σ
  end.
Proof.
  unfold load_inventory. run.
  destruct (file σ) as [| | | |data] eqn:Ef; try reflexivity;
    unfold try_except, read_json; run; rewrite Ef; try reflexivity.
  destruct (iterate data) as [items|e]; cbn; [|reflexivity].
  destruct (rmap load_item items) as [args|e]; cbn; [|reflexivity].
  destruct (mapM typed args) as [ps|]; [|reflexivity].
  now destruct (new_Products_returns ps σ) as (ls & σ' & ->).
Qed.

Lemma rmap_app_Raise {A B} (f : A -> result B) pre bad post e :
  Forall (fun x => ∃ y, f x = Ok y) pre -> f bad = Raise e ->
  rmap f (pre ++ bad :: post) = Raise e.
Proof.
  intros Hpre Hbad. induction Hpre as [|x pre [y Hy] _ IH]; simpl.
  - now rewrite Hbad.
  - now rewrite Hy, IH.
Qed.

(** The records that raise an exception [load_inventory] catches. *)
Lemma load_item_caught m :
  (m !! "name" = None → load_item (JObj m) = Raise KeyError) ∧
  (∀ s, is_Some (m !! "name") → is_Some (m !! "price") →
        m !! "stock" = Some (JStr s) → int_accepts s = false →
        load_item (JObj m) = Raise ValueError) ∧
  (∀ s, is_Some (m !! "name") → is_Some (m !! "price") →
        m !! "stock" = Some s → (∃ k, int_of s = Ok k) →
        m !! "item_code" = None →
        load_item (JObj m) = Raise KeyError).
Proof.
  unfold load_item, subscript. split; [|split].
  - now intros ->.
  - intros s [n ->] [p ->] -> Hs. cbn. unfold int_accepts in Hs.
    destruct (py_int s) as [k|e] eqn:E; [discriminate|].
    now rewrite (py_int_raises _ _ E).
  - intros s [n ->] [p ->] -> [k Hk] ->. cbn. now rewrite Hk.
Qed.

(** X1. Without usable data [load_inventory] returns the empty list and
    changes nothing: when the file is missing, cannot be opened, is not
    JSON or holds an integer beyond the digit limit, and also when it is
    a list in which the first record that raises an exception raises
    [KeyError] or [ValueError] (a key is missing, the stock is text that
    [int] rejects). The records read before it are dropped and those
    after it are not read, whatever they hold. When the first record
    that raises an exception raises another one, that exception leaves
    [load_inventory], even if a later record lacks a key. *)
Theorem load_inventory_falls_back σ :
  (file σ = Missing ∨ file σ = Unreadable ∨ file σ = Corrupt ∨ file σ = Oversize →
   load_inventory σ = Ret [] σ) ∧
  (∀ pre bad post e,
     file σ = Holds (JList (pre ++ bad :: post)) →
     Forall (fun x => ∃ a, load_item x = Ok a) pre →
     load_item bad = Raise e →
     load_inventory σ = if load_caught e then Ret [] σ else Throw e σ) ∧
  (∀ pre m post,
     file σ = Holds (JList (pre ++ JObj m :: post)) →
     Forall (fun x => ∃ a, load_item x = Ok a) pre →
     m !! "name" = None →
     load_inventory σ = Ret [] σ) ∧
  (∀ pre m s post,
     file σ = Holds (JList (pre ++ JObj m :: post)) →
     Forall (fun x => ∃ a, load_item x = Ok a) pre →
     is_Some (m !! "name") → is_Some (m !! "price") →
     m !! "stock" = Some (JStr s) → int_accepts s = false →
     load_inventory σ = Ret [] σ) ∧
  (∀ m post,
     file σ = Holds (JList (JObj m :: post)) →
     is_Some (m !! "name") → is_Some (m !! "price") →
     m !! "stock" = Some JNull →
     load_inventory σ = Throw TypeError σ).
Proof.
  assert (∀ pre bad post e,
     file σ = Holds (JList (pre ++ bad :: post)) →
     Forall (fun x => ∃ a, load_item x = Ok a) pre →
     load_item bad = Raise e →
     load_inventory σ = if load_caught e then Ret [] σ else Throw e σ) as Hbad.
  { intros pre bad post e Hf Hpre Hb. rewrite load_inventory_unfold, Hf.
    cbn [iterate rbind]. now rewrite (rmap_app_Raise _ _ _ _ _ Hpre Hb). }
  split; [|split; [exact Hbad|split; [|split]]].
  - rewrite load_inventory_unfold. now intros [-> | [-> | [-> | ->]]].
  - intros pre m post Hf Hpre Hm.
    rewrite (Hbad pre (JObj m) post KeyError Hf Hpre); [reflexivity|].
    now apply load_item_caught.
  - intros pre m s post Hf Hpre Hn Hp Hs Hrej.
    rewrite (Hbad pre (JObj m) post ValueError Hf Hpre); [reflexivity|].
    now apply (proj1 (proj2 (load_item_caught m)) s).
  - intros m post Hf [n Hn] [pr Hp] Hs.
    rewrite (Hbad [] (JObj m) post TypeError Hf); [reflexivity | constructor|].
    unfold load_item, subscript. now rewrite Hn, Hp, Hs.
Qed.

Lemma load_inventory_falls_back_witness :
  let σ := set_file (Holds (JList [to_dict pen; JObj (<["price" := JFloat 1]> ∅);
                                   to_dict ink])) shop in
  load_inventory σ = Ret [] σ.
Proof.
  cbn zeta.
  apply (proj1 (proj2 (proj2 (load_inventory_falls_back _)))
           [to_dict pen] (<["price" := JFloat 1]> ∅) [to_dict ink]).
  - reflexivity.
  - constructor; [|constructor]. rewrite load_item_to_dict. eauto.
  - reflexivity.
Defined.

(** X2. Valid JSON of another shape is not caught. [load_inventory]
    raises [TypeError] when the file holds a number, a boolean or
    [null], a non-empty object, a non-empty string, or a list whose
    first element is not an object; it raises [OverflowError] when the
    first record has an infinite stock. An exception that leaves it is
    none of the four it catches, and the state is as before the call. *)
Theorem load_inventory_crashes σ data :
  file σ = Holds data ->
  (match data with
   | JNull | JBool _ | JInt _ | JFloat _ => True
   | JObj m => m ≠ ∅
   | JStr s => s ≠ ""
   | JList (JObj _ :: _) | JList [] => False
   | JList _ => True
   end → load_inventory σ = Throw TypeError σ) ∧
  (∀ m rest,
     data = JList (JObj m :: rest) →
     is_Some (m !! "name") → is_Some (m !! "price") →
     (m !! "stock" = Some (JFloat infinity) ∨
      m !! "stock" = Some (JFloat neg_infinity)) →
     load_inventory σ = Throw OverflowError σ) ∧
  (∀ e σ', load_inventory σ = Throw e σ' →
     load_caught e = false ∧ σ' = σ).
Proof.
  intros Hf. rewrite load_inventory_unfold, Hf. split; [|split].
  - destruct data as [|b|z|f|s|items|m]; cbn [iterate rbind]; try reflexivity.
    + intros Hs. destruct s as [|c s]; [contradiction|]. reflexivity.
    + destruct items as [|[] items]; try contradiction; reflexivity.
    + intros Hm. destruct (map_to_list m) as [|[k v] kvs] eqn:E.
      * now apply map_to_list_empty_iff in E.
      * reflexivity.
  - intros m rest -> [n Hn] [p Hp] Hs. cbn [iterate rbind rmap].
    unfold load_item, subscript. rewrite Hn, Hp.
    now destruct Hs as [-> | ->].
  - intros e σ'.
    destruct (rbind (iterate data) (rmap load_item)) as [args|e0].
    + destruct (mapM typed args) as [ps|]; [|discriminate].
      destruct (new_Products_returns ps σ) as (ls & σ'' & ->). discriminate.
    + destruct (load_caught e0) eqn:E; [discriminate|]. now intros [= <- <-].
Qed.

Lemma load_inventory_crashes_witness :
  let σ := set_file (Holds (JObj (<["items" := JList []]> ∅))) shop in
  load_inventory σ = Throw TypeError σ.
Proof.
  cbn zeta.
  apply (load_inventory_crashes
           (set_file (Holds (JObj (<["items" := JList []]> ∅))) shop)
           (JObj (<["items" := JList []]> ∅)) eq_refl).
  intros H. apply (f_equal (lookup "items")) in H. discriminate H.
Defined.

(** New objects are pairwise distinct. *)
Lemma new_Products_NoDup ps σ ls σ' :
  new_Products ps σ = Ret ls σ' -> NoDup ls.
Proof.
  revert σ ls σ'. induction ps as [|p ps IH]; intros σ ls σ'.
  - intros [= <- <-]. constructor.
  - cbn [new_Products]. run. unfold new_Product.
    set (l := fresh (dom (heap σ))).
    set (σ1 := set_heap (<[l:=p]> (heap σ)) σ).
    destruct (new_Products_run ps σ1) as (ls1 & σ2 & Hrun & _ & _ & _ & _ & _ & Hnew).
    rewrite Hrun. intros [= <- <-]. constructor; [|now apply (IH σ1 ls1 σ2)].
    intros Hin. rewrite Forall_forall in Hnew. destruct (Hnew l Hin) as [Hl _].
    cbn in Hl. now rewrite lookup_insert_eq in Hl.
Qed.

(** What a returning [load_inventory] has done: nothing, or it has
    created the objects of the records of the file. *)
Lemma load_inventory_Ret σ ls σ' :
  load_inventory σ = Ret ls σ' ->
  (ls = [] ∧ σ' = σ) ∨ (∃ ps, new_Products ps σ = Ret ls σ').
Proof.
  rewrite load_inventory_unfold.
  destruct (file σ) as [| | | |data]; try (intros [= <- <-]; now left).
  destruct (rbind (iterate data) (rmap load_item)) as [args|e].
  - destruct (mapM typed args) as [ps|]; [|discriminate]. intros H. right. eauto.
  - destruct (load_caught e); [|discriminate]. intros [= <- <-]. now left.
Qed.

(** X3. The products [load_inventory] returns are new objects: pairwise
    distinct, none of them an object that existed before the call, all
    of them allocated after it. The call keeps the inventory list, the
    file and every existing object. *)
Theorem load_inventory_fresh σ ls σ' :
  load_inventory σ = Ret ls σ' ->
  NoDup ls ∧
  (∀ l, l ∈ ls → heap σ !! l = None ∧ is_Some (heap σ' !! l)) ∧
  heap σ ⊆ heap σ' ∧
  inventory σ' = inventory σ ∧ file σ' = file σ ∧ writable σ' = writable σ.
Proof.
  intros [[-> ->] | [ps Hps]]%load_inventory_Ret.
  - split; [constructor|]. split; [intros l Hl; inversion Hl|]. auto.
  - split; [now apply (new_Products_NoDup ps σ ls σ')|].
    destruct (new_Products_run ps σ) as (ls' & σ'' & Hrun & _ & Hsub & Hinv & Hf & Hw & Hnew).
    rewrite Hps in Hrun. injection Hrun as <- <-.
    rewrite Forall_forall in Hnew. auto.
Qed.

Lemma load_inventory_fresh_witness :
  ∃ ls σ', load_inventory (set_file (snapshot [pen; ink]) shop) = Ret ls σ' ∧
           NoDup ls ∧ inventory σ' = inventory shop.
Proof.
  destruct (load_inventory_saved (set_file (snapshot [pen; ink]) shop) [pen; ink] eq_refl)
    as (ls & σ' & Hrun & _).
  exists ls, σ'. split; [exact Hrun|].
  destruct (load_inventory_fresh _ _ _ Hrun) as (H1 & _ & _ & H2 & _).
  split; [exact H1 | exact H2].
Defined.

(** *** Saving, and starting again *)

Lemma app_start_saved σ ps :
  file σ = snapshot ps ->
  ∃ ls σ1,
    load_inventory σ = Ret ls σ1 ∧
    app_start σ = Ret tt (set_inventory ls σ1) ∧
    products (set_inventory ls σ1) = ps ∧
    heap σ ⊆ heap σ1 ∧ file σ1 = file σ ∧ writable σ1 = writable σ.
Proof.
  intros Hf.
  destruct (load_inventory_saved σ ps Hf) as (ls & σ1 & Hrun & Hval & Hsub & _ & Hfile & Hw).
  exists ls, σ1. split; [exact Hrun|]. split; [|auto].
  unfold app_start. run. now rewrite Hrun.
Qed.



(** X5. A save that cannot write is silent: [save_inventory] returns as
    usual, nothing changes, and the next start of the application reads
    what the file held before, not the inventory in memory. *)
Theorem save_inventory_silent σ :
  writable σ = false ->
  save_inventory σ = Ret tt σ ∧
  (save_inventory;; app_start) σ = app_start σ ∧
  (∀ ps, file σ = snapshot ps →
     ∃ σ', (save_inventory;; app_start) σ = Ret tt σ' ∧ products σ' = ps).
Proof.
  intros Hw.
  assert (save_inventory σ = Ret tt σ) as Hs by (now rewrite save_inventory_run, Hw).
  split; [exact Hs|]. split.
  - run. now rewrite Hs.
  - intros ps Hf.
    destruct (app_start_saved σ ps Hf) as (ls & σ1 & _ & Hstart & Hval & _).
    exists (set_inventory ls σ1). split; [|exact Hval].
    run. now rewrite Hs.
Qed.

Lemma save_inventory_silent_witness :
  let σ := mkState (heap shop) (inventory shop) (snapshot [pen]) false in
  ∃ σ', (save_inventory;; app_start) σ = Ret tt σ' ∧ products σ' = [pen].
Proof.
  cbn zeta.
  exact (proj2 (proj2 (save_inventory_silent
           (mkState (heap shop) (inventory shop) (snapshot [pen]) false) eq_refl))
           [pen] eq_refl).
Defined.




(** *** The delete route *)

(** X6. [delete_product_route] saves only after a removal. Without a
    product for the code it flashes an error and changes nothing, the
    file included. With one it removes the first match and saves. When
    the save returns the route flashes success: the file then holds
    exactly the products left when it can be written, and still holds
    the old data, success flashed all the same, when it cannot. When a
    product that is left has a stock beyond the digit limit and the file
    can be opened, the save raises [ValueError] and so does the route:
    the product is gone from memory and the file is left truncated. *)
Theorem delete_product_route_saves σ code :
  (find_product σ code = None →
   delete_product_route code σ
   = Ret ("Error: Product " +:+ code +:+ " not found.", danger) σ) ∧
  (∀ l, find_product σ code = Some l →
     ∃ pre post,
       inventory σ = pre ++ l :: post ∧ (l ∉ pre) ∧
       ((writable σ = true → savable (deref σ <$> pre ++ post) = true) →
        ∃ σ',
          delete_product_route code σ
          = Ret ("Product " +:+ code +:+ " deleted successfully!", warning) σ' ∧
          inventory σ' = pre ++ post ∧ heap σ' = heap σ ∧
          (writable σ = true → file σ' = snapshot (products σ')) ∧
          (writable σ = false → file σ' = file σ)) ∧
       (writable σ = true → savable (deref σ <$> pre ++ post) = false →
        delete_product_route code σ
        = Throw ValueError (mkState (heap σ) (pre ++ post) Corrupt true))).
Proof.
  unfold delete_product_route. run.
  destruct (delete_product_run σ code)
    as [[Hf Hd] | (l & pre & post & Hf & Hinv & Hpre & Hd)]; rewrite Hd, Hf.
  - split; [reflexivity | discriminate].
  - split; [discriminate|]. intros l' [= <-]. exists pre, post.
    split; [exact Hinv|]. split; [exact Hpre|].
    rewrite save_inventory_run. cbn [writable].
    change (products (mkState (heap σ) (pre ++ post) (file σ) (writable σ)))
      with (deref σ <$> pre ++ post).
    split.
    + intros Hs. destruct (writable σ).
      * rewrite (Hs eq_refl). eexists. split; [reflexivity|].
        repeat split; auto; discriminate.
      * eexists. split; [reflexivity|]. repeat split; auto; discriminate.
    + intros -> ->. reflexivity.
Qed.

Lemma delete_product_route_saves_witness :
  ∃ σ', delete_product_route "itm001" shop
        = Ret ("Product itm001 deleted successfully!", warning) σ' ∧
        file σ' = snapshot [ink].
Proof.
  destruct (proj2 (delete_product_route_saves shop "itm001") 0 eq_refl)
    as (pre & post & Hinv & Hpre & Hsave & _).
  assert (pre = [] ∧ post = [1]) as [-> ->].
  { destruct pre as [|x pre]; cbn in Hinv.
    - inversion Hinv; subst. auto.
    - inversion Hinv; subst. exfalso. apply Hpre. left. }
  destruct (Hsave (fun _ => eq_refl)) as (σ' & Hrun & Hinv' & Hheap & Hw & _).
  exists σ'. split; [exact Hrun|]. rewrite (Hw eq_refl). f_equal.
  unfold products, deref. rewrite Hinv', Hheap. reflexivity.
Defined.

(** *** Looking up by name *)

Lemma lower_lower_char c : lower_char (lower_char c) = lower_char c.
Proof. ascii_cases c; reflexivity. Qed.

Lemma lower_lower s : lower (lower s) = lower s.
Proof. induction s as [|c r IH]; simpl; [reflexivity|]. now rewrite lower_lower_char, IH. Qed.

Lemma get_product_by_name_Some σ n l :
  get_product_by_name σ n = Some l <->
  ∃ pre post,
    inventory σ = pre ++ l :: post ∧
    eq_ignore_case (name (deref σ l)) n ∧
    ∀ l', l' ∈ pre → ¬ eq_ignore_case (name (deref σ l')) n.
Proof.
  unfold get_product_by_name, eq_ignore_case. rewrite find_Some_iff.
  split; intros (pre & post & Hinv & Hl & Hpre); exists pre, post.
  - apply bool_decide_eq_true in Hl. repeat split; [exact Hinv | exact Hl|].
    intros l' Hl'. specialize (Hpre l' Hl'). now apply bool_decide_eq_false in Hpre.
  - repeat split; [exact Hinv | now apply bool_decide_eq_true|].
    intros l' Hl'. apply bool_decide_eq_false. now apply Hpre.
Qed.

(** X7. [get_product_by_name] compares the lowercased name with the
    lowercased query: it returns the first product for which the two are
    equal, so two queries with the same lowercase form get the same
    answer, the lowercased query among them, and for ASCII text the
    uppercased query too. *)
Theorem get_product_by_name_ignores_case σ n :
  (∀ l, get_product_by_name σ n = Some l ↔
     ∃ pre post,
       inventory σ = pre ++ l :: post ∧
       eq_ignore_case (name (deref σ l)) n ∧
       ∀ l', l' ∈ pre → ¬ eq_ignore_case (name (deref σ l')) n) ∧
  (∀ n', eq_ignore_case n n' → get_product_by_name σ n' = get_product_by_name σ n) ∧
  get_product_by_name σ (lower n) = get_product_by_name σ n ∧
  (is_ascii n = true → get_product_by_name σ (upper n) = get_product_by_name σ n).
Proof.
  assert (∀ n', eq_ignore_case n n' →
            get_product_by_name σ n' = get_product_by_name σ n) as Hinv.
  { intros n' Hn. unfold get_product_by_name. unfold eq_ignore_case in Hn.
    now rewrite Hn. }
  split; [intros l; apply get_product_by_name_Some|]. split; [exact Hinv|]. split.
  - apply Hinv. unfold eq_ignore_case. now rewrite lower_lower.
  - intros _. apply Hinv. unfold eq_ignore_case. now rewrite lower_upper.
Qed.

Lemma get_product_by_name_ignores_case_witness :
  get_product_by_name shop "iNK" = get_product_by_name shop "Ink".
Proof.
  apply (proj1 (proj2 (get_product_by_name_ignores_case shop "Ink")) "iNK").
  reflexivity.
Defined.

(** *** How the functions compose *)

Lemma find_ext {A} (f g : A -> bool) (l : list A) :
  (∀ x, x ∈ l → f x = g x) -> List.find f l = List.find g l.
Proof.
  induction l as [|y l IH]; simpl; intros H; [reflexivity|].
  rewrite <- (H y) by left. destruct (f y); [reflexivity|].
  apply IH. intros x Hx. apply H. now right.
Qed.

Lemma find_snoc {A} (f : A -> bool) (l : list A) (x : A) :
  List.find f (l ++ [x]) =
  match List.find f l with
  | Some y => Some y
  | None => if f x then Some x else None
  end.
Proof. induction l as [|y l IH]; simpl; [reflexivity|]. now destruct (f y). Qed.

Lemma find_product_ext σ σ' q :
  inventory σ' = inventory σ ->
  (∀ l, l ∈ inventory σ → item_code (deref σ' l) = item_code (deref σ l)) ->
  find_product σ' q = find_product σ q.
Proof.
  intros Hinv Hc. unfold find_product. rewrite Hinv. apply find_ext.
  intros l Hl. now rewrite Hc.
Qed.

Lemma get_product_by_name_ext σ σ' n :
  inventory σ' = inventory σ ->
  (∀ l, l ∈ inventory σ → name (deref σ' l) = name (deref σ l)) ->
  get_product_by_name σ' n = get_product_by_name σ n.
Proof.
  intros Hinv Hc. unfold get_product_by_name. rewrite Hinv. apply find_ext.
  intros l Hl. now rewrite Hc.
Qed.

Lemma products_ext (σ σ' : State) (ls : list loc) :
  (∀ l, l ∈ ls → deref σ' l = deref σ l) -> deref σ' <$> ls = deref σ <$> ls.
Proof.
  intros H. apply list_fmap_ext. intros i l Hl. apply H.
  apply list_elem_of_lookup. eauto.
Qed.

(** [generate_item_code] reads the stored codes and nothing else. *)
Lemma generate_item_code_ext σ σ' :
  codes σ' = codes σ -> generate_item_code σ' = generate_item_code σ.
Proof.
  intros Hc. rewrite !generate_item_code_unfold. unfold suffixes. rewrite Hc.
  apply (f_equal length) in Hc. unfold codes, products in Hc.
  rewrite !length_fmap in Hc.
  destruct (inventory σ), (inventory σ'); try reflexivity; discriminate Hc.
Qed.

Lemma wf_fresh σ : wf σ -> fresh (dom (heap σ)) ∉ inventory σ.
Proof.
  intros Hwf Hin. unfold wf in Hwf. rewrite Forall_forall in Hwf.
  apply Hwf in Hin. rewrite fresh_unallocated in Hin. now destruct Hin.
Qed.

(** Allocating a new object changes no object of the inventory. *)
Lemma deref_fresh σ p i w f l :
  wf σ -> l ∈ inventory σ ->
  deref (mkState (<[fresh (dom (heap σ)) := p]> (heap σ)) i f w) l = deref σ l.
Proof.
  intros Hwf Hl. apply deref_eq. cbn. apply lookup_insert_ne.
  intros <-. now apply (wf_fresh σ Hwf).
Qed.

(** Strings without lowercase letters and white space are their own
    normal form. *)
Lemma plain_normal s : all_chars plain_char s = true -> normalise s = s.
Proof.
  intros H. unfold normalise. rewrite upper_id.
  - apply strip_id. eapply all_chars_impl; [|exact H].
    unfold plain_char. now intros c [_ Hc]%andb_true_iff.
  - unfold has_lower. induction s as [|c r IH]; [reflexivity|].
    cbn in *. apply andb_true_iff in H as [Hc Hr].
    unfold plain_char in Hc. apply andb_true_iff in Hc as [Hc _].
    apply negb_true_iff in Hc. now rewrite Hc, IH.
Qed.

Lemma digit_plain c : isdigit c = true -> plain_char c = true.
Proof. ascii_cases c; simpl; intros H; try reflexivity; discriminate H. Qed.

Lemma text_03d_plain k : all_chars plain_char (text_03d k) = true.
Proof.
  unfold text_03d. destruct (k <? 0)%Z; cbn [all_chars].
  - apply andb_true_iff. split; [reflexivity|].
    eapply all_chars_impl; [apply digit_plain | apply zero_pad_digits].
  - eapply all_chars_impl; [apply digit_plain | apply zero_pad_digits].
Qed.

Lemma generated_normal k :
  normalise ("ITM" +:+ text_03d k) = "ITM" +:+ text_03d k.
Proof.
  apply plain_normal. change ("ITM" +:+ text_03d k)
    with (String "I" (String "T" (String "M" (text_03d k)))).
  cbn [all_chars]. rewrite text_03d_plain. reflexivity.
Qed.

(** X8. What [add_product] has stored can be looked up. After a
    successful call on a state with valid references (the next number
    within the digit limit), [find_product]
    returns the new product for its code, for the lowercased code and
    for every query with that normal form, [get_product_by_name] returns
    it for the name in any letter case, and every other query gets the
    answer it got before. *)
Theorem add_product_then_lookup σ n pr st :
  wf σ -> parsable σ = true -> next_fits σ ->
  (pr <=? 0)%float = false -> (0 <= st)%Z ->
  (∀ l, l ∈ inventory σ → ¬ eq_ignore_case (name (deref σ l)) n) ->
  ∃ l c σ',
    add_product n pr st σ = Ret (Some l) σ' ∧
    deref σ' l = mkProduct n pr st c ∧
    find_product σ' c = Some l ∧
    find_product σ' (lower c) = Some l ∧
    (∀ q, normalise q = c → find_product σ' q = Some l) ∧
    (∀ q, normalise q ≠ c → find_product σ' q = find_product σ q) ∧
    (∀ n', eq_ignore_case n n' → get_product_by_name σ' n' = Some l) ∧
    (∀ n', ¬ eq_ignore_case n n' →
           get_product_by_name σ' n' = get_product_by_name σ n').
Proof.
  intros Hwf Hp Hfit Hpr Hst Hname.
  destruct (generate_item_code_Ok σ Hp Hfit) as (k & Hk & Hlim & Hgen).
  pose proof (proj2 (get_product_by_name_None σ n) Hname) as Hnone.
  set (c := "ITM" +:+ text_03d k). set (l := fresh (dom (heap σ))).
  set (σ' := mkState (<[l := mkProduct n pr st c]> (heap σ))
                     (inventory σ ++ [l]) (file σ) (writable σ)).
  assert (add_product n pr st σ = Ret (Some l) σ') as Hrun.
  { rewrite (add_product_run σ n pr st Hpr Hst Hnone), Hgen. reflexivity. }
  assert (deref σ' l = mkProduct n pr st c) as Hnew.
  { unfold deref, σ'. cbn. apply lookup_total_insert_eq. }
  assert (∀ l', l' ∈ inventory σ → deref σ' l' = deref σ l') as Hold.
  { intros l' Hl'. now apply deref_fresh. }
  assert (∀ q, find_product σ' q =
               match find_product σ q with
               | Some y => Some y
               | None => if bool_decide (c = normalise q) then Some l else None
               end) as Hfind.
  { intros q. unfold find_product. cbn [inventory σ']. rewrite find_snoc.
    rewrite Hnew. cbn [item_code]. fold (normalise q).
    rewrite (find_ext _ (fun l' => bool_decide (item_code (deref σ l') = normalise q)));
      [reflexivity|].
    intros l' Hl'. now rewrite Hold. }
  assert (∀ q, normalise q = c → find_product σ' q = Some l) as Hhit.
  { intros q Hq. rewrite Hfind.
    assert (find_product σ q = None) as ->.
    { apply find_product_None. intros l' Hl'. rewrite Hq. now apply next_code_fresh. }
    now rewrite bool_decide_eq_true_2. }
  assert (∀ n', get_product_by_name σ' n' =
               match get_product_by_name σ n' with
               | Some y => Some y
               | None => if bool_decide (lower n = lower n') then Some l else None
               end) as Hget.
  { intros n'. unfold get_product_by_name. cbn [inventory σ']. rewrite find_snoc.
    rewrite Hnew. cbn [name].
    rewrite (find_ext _ (fun l' => bool_decide (lower (name (deref σ l')) = lower n')));
      [reflexivity|].
    intros l' Hl'. now rewrite Hold. }
  exists l, c, σ'. split; [exact Hrun|]. split; [exact Hnew|].
  split; [apply Hhit, generated_normal|].
  split; [apply Hhit; unfold normalise; rewrite upper_lower; apply generated_normal|].
  split; [exact Hhit|]. split; [|split].
  - intros q Hq. rewrite Hfind. destruct (find_product σ q); [reflexivity|].
    now rewrite bool_decide_eq_false_2.
  - intros n' Hn. rewrite Hget.
    assert (get_product_by_name σ n' = None) as ->.
    { apply get_product_by_name_None. intros l' Hl' Hc. apply (Hname l' Hl').
      unfold eq_ignore_case in *. congruence. }
    now rewrite bool_decide_eq_true_2.
  - intros n' Hn. rewrite Hget. destruct (get_product_by_name σ n'); [reflexivity|].
    now rewrite bool_decide_eq_false_2.
Qed.

Lemma shop_wf : wf shop.
Proof.
  unfold wf. cbn. repeat constructor; eexists; reflexivity.
Qed.

Lemma add_product_then_lookup_witness :
  ∃ l σ', add_product "Cap" 1 3 shop = Ret (Some l) σ' ∧
          find_product σ' " itm004 " = Some l.
Proof.
  destruct (add_product_then_lookup shop "Cap" 1 3 shop_wf eq_refl shop_next_fits eq_refl)
    as (l & c & σ' & Hrun & Hnew & _ & _ & Hq & _).
  - lia.
  - intros l Hl. cbn in Hl.
    repeat (apply elem_of_cons in Hl as [-> | Hl]); [| |inversion Hl];
      unfold eq_ignore_case; vm_compute; discriminate.
  - exists l, σ'. split; [exact Hrun|]. apply Hq.
    assert (add_product "Cap" 1 3 shop
            = Ret (Some (fresh (dom (heap shop))))
                  (mkState (<[fresh (dom (heap shop)) := mkProduct "Cap" 1 3 "ITM004"]>
                              (heap shop))
                           (inventory shop ++ [fresh (dom (heap shop))])
                           (file shop) (writable shop))) as Hrun'
      by (vm_compute; reflexivity).
    rewrite Hrun in Hrun'. injection Hrun' as -> ->.
    unfold deref in Hnew. cbn [heap] in Hnew.
    rewrite lookup_total_insert_eq in Hnew. injection Hnew as <-. reflexivity.
Defined.

Lemma snoc_split (a pre post : list loc) (l : loc) :
  l ∉ a -> l ∉ pre -> a ++ [l] = pre ++ l :: post -> pre = a ∧ post = [].
Proof.
  revert pre. induction a as [|x a IH]; intros pre Ha Hpre H.
  - destruct pre as [|y pre]; cbn in H.
    + injection H as <-. auto.
    + injection H as <- _. exfalso. apply Hpre. left.
  - destruct pre as [|y pre]; cbn in H.
    + injection H as -> _. exfalso. apply Ha. left.
    + injection H as <- H. apply not_elem_of_cons in Ha as [_ Ha].
      apply not_elem_of_cons in Hpre as [_ Hpre].
      destruct (IH pre Ha Hpre H) as [-> ->]. auto.
Qed.

(** X9. A code comes back after its product is deleted. When the
    product [add_product] has just stored is deleted again, the
    inventory is as before the call, and the next [add_product] gives a
    second object the very same code. *)
Theorem item_code_reused σ n pr st :
  wf σ -> parsable σ = true -> next_fits σ ->
  (pr <=? 0)%float = false -> (0 <= st)%Z ->
  (∀ l, l ∈ inventory σ → ¬ eq_ignore_case (name (deref σ l)) n) ->
  ∃ l c σ1 σ2 l2 σ3,
    add_product n pr st σ = Ret (Some l) σ1 ∧
    item_code (deref σ1 l) = c ∧
    delete_product c σ1 = Ret true σ2 ∧
    inventory σ2 = inventory σ ∧ products σ2 = products σ ∧
    add_product n pr st σ2 = Ret (Some l2) σ3 ∧
    l2 ≠ l ∧ item_code (deref σ3 l2) = c.
Proof.
  intros Hwf Hp Hfit Hpr Hst Hname.
  destruct (generate_item_code_Ok σ Hp Hfit) as (k & Hk & Hlim & Hgen).
  pose proof (proj2 (get_product_by_name_None σ n) Hname) as Hnone.
  set (c := "ITM" +:+ text_03d k). set (l := fresh (dom (heap σ))).
  set (h1 := <[l := mkProduct n pr st c]> (heap σ)).
  set (σ1 := mkState h1 (inventory σ ++ [l]) (file σ) (writable σ)).
  set (σ2 := mkState h1 (inventory σ) (file σ) (writable σ)).
  assert (l ∉ inventory σ) as Hl by now apply wf_fresh.
  assert (add_product n pr st σ = Ret (Some l) σ1) as Hrun.
  { rewrite (add_product_run σ n pr st Hpr Hst Hnone), Hgen. reflexivity. }
  assert (deref σ1 l = mkProduct n pr st c) as Hnew.
  { unfold deref, σ1, h1. cbn. apply lookup_total_insert_eq. }
  assert (∀ l', l' ∈ inventory σ → deref σ2 l' = deref σ l') as Hold.
  { intros l' Hl'. now apply deref_fresh. }
  assert (find_product σ1 c = Some l) as Hfind.
  { apply find_product_Some. exists (inventory σ), []. split; [reflexivity|].
    assert (normalise c = c) as -> by apply generated_normal.
    rewrite Hnew. split; [reflexivity|].
    intros l' Hl'. change (deref σ1 l') with (deref σ2 l').
    rewrite (Hold l' Hl'). now apply next_code_fresh. }
  assert (delete_product c σ1 = Ret true σ2) as Hdel.
  { destruct (delete_product_run σ1 c)
      as [[Hf _] | (l' & pre & post & Hf & Hinv & Hpre & Hd)]; [congruence|].
    rewrite Hfind in Hf. injection Hf as <-. cbn [inventory σ1] in Hinv.
    destruct (snoc_split _ _ _ _ Hl Hpre Hinv) as [-> ->].
    rewrite Hd, app_nil_r. reflexivity. }
  assert (products σ2 = products σ) as Hprod.
  { unfold products. cbn [inventory σ2]. now apply products_ext. }
  assert (generate_item_code σ2 = Ok c) as Hgen2.
  { rewrite (generate_item_code_ext σ σ2), Hgen; [reflexivity|].
    unfold codes. now rewrite Hprod. }
  assert (get_product_by_name σ2 n = None) as Hnone2.
  { rewrite (get_product_by_name_ext σ σ2); [exact Hnone | reflexivity|].
    intros l' Hl'. now rewrite Hold. }
  set (l2 := fresh (dom (heap σ2))).
  exists l, c, σ1, σ2, l2. eexists.
  split; [exact Hrun|]. split; [now rewrite Hnew|]. split; [exact Hdel|].
  split; [reflexivity|]. split; [exact Hprod|].
  split; [rewrite (add_product_run σ2 n pr st Hpr Hst Hnone2), Hgen2; reflexivity|].
  split.
  - intros Heq. pose proof (fresh_unallocated σ2) as Hfr. fold l2 in Hfr.
    rewrite Heq in Hfr. cbn [heap σ2] in Hfr. unfold h1 in Hfr.
    now rewrite lookup_insert_eq in Hfr.
  - unfold deref. cbn [heap]. now rewrite lookup_total_insert_eq.
Qed.

Lemma item_code_reused_witness :
  ∃ l σ1 σ2, add_product "Cap" 1 3 shop = Ret (Some l) σ1 ∧
             delete_product (item_code (deref σ1 l)) σ1 = Ret true σ2 ∧
             generate_item_code σ2 = generate_item_code shop.
Proof.
  destruct (item_code_reused shop "Cap" 1 3 shop_wf eq_refl shop_next_fits eq_refl)
    as (l & c & σ1 & σ2 & l2 & σ3 & Hrun & Hc & Hdel & _ & Hprod & _).
  - lia.
  - intros l Hl. cbn in Hl.
    repeat (apply elem_of_cons in Hl as [-> | Hl]); [| |inversion Hl];
      unfold eq_ignore_case; vm_compute; discriminate.
  - exists l, σ1, σ2. split; [exact Hrun|]. rewrite Hc. split; [exact Hdel|].
    apply generate_item_code_ext. unfold codes. now rewrite Hprod.
Defined.

(** X10. The price check lets a NaN through. [nan <= 0] is false, so
    [add_product] stores a product whose price is NaN, and
    [update_product_details] sets the price of a product to NaN and
    returns [True], although the price is not above zero. *)
Theorem nan_price_passes σ :
  (0 <? nan)%float = false ∧
  (∀ n st, parsable σ = true → next_fits σ →
     (0 <= st)%Z → get_product_by_name σ n = None →
     ∃ l σ', add_product n nan st σ = Ret (Some l) σ' ∧
             price (deref σ' l) = nan) ∧
  (∀ code l, find_product σ code = Some l →
     ∃ σ', update_product_details code None (Some nan) σ = Ret true σ' ∧
           price (deref σ' l) = nan).
Proof.
  split; [reflexivity|]. split.
  - intros n st Hp Hfit Hst Hnone.
    destruct (generate_item_code_Ok σ Hp Hfit) as (k & _ & _ & Hgen).
    rewrite (add_product_run σ n nan st eq_refl Hst Hnone), Hgen.
    eexists _, _. split; [reflexivity|].
    unfold deref. cbn [heap]. now rewrite lookup_total_insert_eq.
  - intros code l Hf. unfold update_product_details. run. rewrite Hf.
    change (nan <=? 0)%float with false. unfold assign_price. run.
    eexists. split; [reflexivity|]. now rewrite deref_insert.
Qed.

Lemma nan_price_passes_witness :
  ∃ l σ', add_product "Cap" nan 3 shop = Ret (Some l) σ' ∧ price (deref σ' l) = nan.
Proof.
  apply (proj1 (proj2 (nan_price_passes shop)) "Cap" 3%Z);
    [reflexivity | exact shop_next_fits | lia | reflexivity].
Defined.

(** Assignments to one object leave every name and every code. *)
Lemma updated_at_attrs l0 σ σ' l :
  updated_at l0 σ σ' ->
  name (deref σ' l) = name (deref σ l) ∧
  item_code (deref σ' l) = item_code (deref σ l).
Proof.
  intros Hup. destruct (decide (l = l0)) as [-> | Hl].
  - now destruct Hup as (_ & _ & _ & _ & _ & Hn & Hc).
  - now rewrite (updated_at_other _ _ _ _ Hup Hl).
Qed.

(** X11. [update_product_details] never changes what a lookup returns:
    whatever the arguments and the result, the stored codes and names
    are the same afterwards, [find_product] and [get_product_by_name]
    answer every query as before, and [generate_item_code] gives the
    same code or raises as before. *)
Theorem update_product_details_keeps_lookups σ code ns np :
  ∃ b σ',
    update_product_details code ns np σ = Ret b σ' ∧
    codes σ' = codes σ ∧
    folded_names σ' = folded_names σ ∧
    (∀ q, find_product σ' q = find_product σ q) ∧
    (∀ n, get_product_by_name σ' n = get_product_by_name σ n) ∧
    generate_item_code σ' = generate_item_code σ.
Proof.
  destruct (update_product_details_writes σ code ns np)
    as (b & σ' & Hrun & Hnone & Hsome).
  exists b, σ'. split; [exact Hrun|].
  destruct (find_product σ code) as [l0|] eqn:Ef.
  2: { destruct (Hnone eq_refl) as [_ ->]. auto 6. }
  destruct (Hsome l0 eq_refl) as [Hup _].
  pose proof Hup as (Hinv & _).
  assert (codes σ' = codes σ) as Hcodes.
  { unfold codes, products. rewrite Hinv, <- !list_fmap_compose.
    apply list_fmap_ext. intros i l _. cbn. apply (updated_at_attrs l0 σ σ' l Hup). }
  split; [exact Hcodes|]. split; [|split; [|split]].
  - unfold folded_names, products. rewrite Hinv, <- !list_fmap_compose.
    apply list_fmap_ext. intros i l _. cbn.
    now rewrite (proj1 (updated_at_attrs l0 σ σ' l Hup)).
  - intros q. apply find_product_ext; [exact Hinv|].
    intros l _. apply (updated_at_attrs l0 σ σ' l Hup).
  - intros n. apply get_product_by_name_ext; [exact Hinv|].
    intros l _. apply (updated_at_attrs l0 σ σ' l Hup).
  - now apply generate_item_code_ext.
Qed.

Lemma elem_of_low_stock σ l :
  l ∈ get_low_stock_items σ <->
  l ∈ inventory σ ∧ (stock (deref σ l) < LOW_STOCKTHRESHOLD)%Z.
Proof.
  unfold get_low_stock_items. rewrite list_elem_of_In, filter_In, <- list_elem_of_In.
  now rewrite Z.ltb_lt.
Qed.

(** X12. The low-stock list follows a stock update. After a successful
    update of the stock of [l] to [v], [l] is in the list exactly when
    [v] is below 10 (10 itself is not low), and every other product is
    in the list exactly when it was before. *)
Theorem get_low_stock_items_after_update σ code l v :
  find_product σ code = Some l -> (0 <= v)%Z ->
  ∃ σ',
    update_product_details code (Some v) None σ = Ret true σ' ∧
    (l ∈ get_low_stock_items σ' ↔ (v < 10)%Z) ∧
    (∀ l', l' ≠ l →
       (l' ∈ get_low_stock_items σ' ↔ l' ∈ get_low_stock_items σ)).
Proof.
  intros Hf Hv. pose proof (find_product_elem σ code l Hf) as [Hl _].
  eexists. unfold update_product_details. run. rewrite Hf.
  apply Z.ltb_ge in Hv. rewrite Hv. unfold assign_stock. run.
  split; [reflexivity|]. split.
  - rewrite elem_of_low_stock, deref_insert. cbn. unfold LOW_STOCKTHRESHOLD. tauto.
  - intros l' Hl'. rewrite !elem_of_low_stock. cbn [inventory set_heap].
    assert (deref (set_heap (<[l := mkProduct (name (deref σ l)) (price (deref σ l)) v
                                      (item_code (deref σ l))]> (heap σ)) σ) l'
            = deref σ l') as ->; [|reflexivity].
    apply deref_eq. cbn. now apply lookup_insert_ne.
Qed.

Lemma get_low_stock_items_after_update_witness :
  ∃ σ', update_product_details "ITM003" (Some 10%Z) None shop = Ret true σ' ∧
        1 ∉ get_low_stock_items σ'.
Proof.
  destruct (get_low_stock_items_after_update shop "ITM003" 1 10%Z eq_refl)
    as (σ' & Hrun & Hl & _); [lia|].
  exists σ'. split; [exact Hrun|]. rewrite Hl. lia.
Defined.

(** *** The inventory the program builds *)

Lemma startswith_ITM_inv c :
  startswith "ITM" c = true -> c = "ITM" +:+ slice_from 3 c.
Proof.
  unfold startswith. destruct c as [|a c]; [discriminate|]. cbn [String.prefix].
  destruct (ascii_dec "I" a) as [<-|]; [|discriminate].
  destruct c as [|b c]; [discriminate|]. cbn [String.prefix].
  destruct (ascii_dec "T" b) as [<-|]; [|discriminate].
  destruct c as [|d c]; [discriminate|]. cbn [String.prefix].
  destruct (ascii_dec "M" d) as [<-|]; [|discriminate]. reflexivity.
Qed.

Lemma well_coded_normal c : well_coded c = true -> normalise c = c.
Proof.
  unfold well_coded, is_numeral. intros [Hp [_ Hd]%andb_true_iff]%andb_true_iff.
  apply plain_normal. rewrite (startswith_ITM_inv c Hp).
  change ("ITM" +:+ slice_from 3 c)
    with (String "I" (String "T" (String "M" (slice_from 3 c)))).
  cbn [all_chars]. rewrite (all_chars_impl _ _ _ digit_plain Hd). reflexivity.
Qed.

Lemma generated_well_coded k :
  (0 <= k)%Z -> well_coded ("ITM" +:+ text_03d k) = true.
Proof.
  intros Hk. unfold well_coded. rewrite startswith_ITM. cbn [andb].
  change (slice_from 3 ("ITM" +:+ text_03d k)) with (text_03d k).
  unfold text_03d. apply Z.ltb_ge in Hk. rewrite Hk. unfold is_numeral.
  rewrite zero_pad_digits, andb_true_r.
  destruct (zero_pad_first 3 (Z.abs_N k)) as (c & r & -> & _). reflexivity.
Qed.

Lemma consistent_numbered σ : consistent σ -> numbered σ = true.
Proof.
  intros (_ & _ & _ & Hall). unfold numbered. apply forallb_forall.
  intros s [l (Hl & _ & ->)]%list_elem_of_In%elem_of_suffixes.
  rewrite Forall_forall in Hall.
  destruct (Hall (deref σ l)) as [Hw _].
  { unfold products. apply list_elem_of_fmap. eauto. }
  unfold well_coded in Hw. now apply andb_true_iff in Hw.
Qed.

Lemma next_number_positive σ k :
  numbered σ = true -> next_number σ k -> (1 <= k)%Z.
Proof.
  intros Hn [[_ ->] | (m & [Hm _] & ->)]; [lia|].
  apply elem_of_numbers in Hm as (s & Hs & Hm).
  unfold numbered in Hn. rewrite forallb_forall in Hn.
  apply list_elem_of_In, Hn in Hs.
  pose proof (py_int_numeral_pos s m Hs Hm). lia.
Qed.

Lemma fmap_split_ne {B} (f : loc -> B) (pre post : list loc) (l : loc) :
  NoDup (f <$> (pre ++ l :: post)) ->
  ∀ l', l' ∈ pre ++ post → f l' ≠ f l.
Proof.
  rewrite fmap_app, fmap_cons. intros (_ & Hdis & Hnd)%NoDup_app.
  apply NoDup_cons in Hnd as [Hpost _].
  intros l' [Hl' | Hl']%elem_of_app Heq.
  - apply (Hdis (f l')); [now apply list_elem_of_fmap_2|]. rewrite Heq. left.
  - apply Hpost. rewrite <- Heq. now apply list_elem_of_fmap_2.
Qed.

(** With distinct codes the product that has the code is the one found,
    and with distinct names likewise. *)
Lemma find_product_unique σ l q :
  NoDup (codes σ) -> l ∈ inventory σ ->
  item_code (deref σ l) = normalise q -> find_product σ q = Some l.
Proof.
  intros Hnd Hl Hq. apply list_elem_of_split in Hl as (pre & post & Hinv).
  apply find_product_Some. exists pre, post. split; [exact Hinv|]. split; [exact Hq|].
  intros l' Hl'. rewrite <- Hq. unfold codes, products in Hnd.
  rewrite <- list_fmap_compose, Hinv in Hnd.
  apply (fmap_split_ne _ pre post l Hnd). apply elem_of_app. now left.
Qed.

Lemma get_product_by_name_unique σ l n :
  NoDup (folded_names σ) -> l ∈ inventory σ ->
  eq_ignore_case (name (deref σ l)) n -> get_product_by_name σ n = Some l.
Proof.
  intros Hnd Hl Hn. apply list_elem_of_split in Hl as (pre & post & Hinv).
  apply get_product_by_name_Some. exists pre, post.
  split; [exact Hinv|]. split; [exact Hn|].
  intros l' Hl'. unfold eq_ignore_case in *. rewrite <- Hn.
  unfold folded_names, products in Hnd.
  rewrite <- list_fmap_compose, Hinv in Hnd.
  apply (fmap_split_ne _ pre post l Hnd). apply elem_of_app. now left.
Qed.

Lemma consistent_nil h f w : consistent (mkState h [] f w).
Proof. repeat split; constructor. Qed.

(** A new, valid product at the end keeps the state consistent. *)
Lemma consistent_snoc σ p :
  consistent σ ->
  well_coded (item_code p) = true -> (price p <=? 0)%float = false -> (0 <= stock p)%Z ->
  item_code p ∉ codes σ -> lower (name p) ∉ folded_names σ ->
  let l := fresh (dom (heap σ)) in
  consistent (mkState (<[l := p]> (heap σ)) (inventory σ ++ [l]) (file σ) (writable σ)).
Proof.
  intros (Hwf & Hc & Hn & Hall) Hw Hpr Hst Hcode Hname l.
  set (σ' := mkState (<[l := p]> (heap σ)) (inventory σ ++ [l]) (file σ) (writable σ)).
  assert (products σ' = products σ ++ [p]) as Hprod.
  { unfold products. cbn [inventory σ']. rewrite fmap_app. f_equal.
    - apply products_ext. intros l' Hl'. now apply deref_fresh.
    - cbn. f_equal. unfold deref. cbn. apply lookup_total_insert_eq. }
  split; [|split; [|split]].
  - unfold wf. cbn [inventory heap σ']. apply Forall_app. split.
    + eapply Forall_impl; [exact Hwf|]. intros l' Hl'. cbn in Hl'.
      rewrite lookup_insert. now case_decide.
    + constructor; [|constructor]. rewrite lookup_insert_eq. eauto.
  - unfold codes. rewrite Hprod, fmap_app. apply NoDup_app. split; [exact Hc|].
    split; [|cbn; apply NoDup_singleton].
    intros c Hin [-> | H]%elem_of_cons; [now apply Hcode | inversion H].
  - unfold folded_names. rewrite Hprod, fmap_app. apply NoDup_app. split; [exact Hn|].
    split; [|cbn; apply NoDup_singleton].
    intros c Hin [-> | H]%elem_of_cons; [now apply Hname | inversion H].
  - rewrite Hprod. apply Forall_app. split; [exact Hall|]. constructor; [auto | constructor].
Qed.

(** Removing one product keeps the state consistent. *)
Lemma consistent_remove σ pre l post :
  consistent σ -> inventory σ = pre ++ l :: post ->
  consistent (mkState (heap σ) (pre ++ post) (file σ) (writable σ)).
Proof.
  intros (Hwf & Hc & Hn & Hall) Hinv.
  assert (pre ++ post `sublist_of` inventory σ) as Hsub.
  { rewrite Hinv. apply sublist_app; [reflexivity | now apply sublist_cons]. }
  split; [|split; [|split]].
  - unfold wf in *. cbn. rewrite Hinv in Hwf.
    apply Forall_app in Hwf as [Hpre Hpost]. apply Forall_app. split; [exact Hpre|].
    now inversion Hpost.
  - eapply sublist_NoDup; [exact Hc|]. unfold codes, products. cbn.
    now do 2 apply fmap_sublist.
  - eapply sublist_NoDup; [exact Hn|]. unfold folded_names, products. cbn.
    now do 2 apply fmap_sublist.
  - unfold products in *. cbn. rewrite Hinv in Hall.
    rewrite fmap_app in *. apply Forall_app in Hall as [Hpre Hpost].
    apply Forall_app. split; [exact Hpre|]. now inversion Hpost.
Qed.

(** The values [update_product_details] stores have passed its checks. *)
Lemma update_product_details_checked σ code ns np b σ' l0 :
  find_product σ code = Some l0 ->
  update_product_details code ns np σ = Ret b σ' ->
  (stock (deref σ' l0) = stock (deref σ l0) ∨ (0 <= stock (deref σ' l0))%Z) ∧
  (price (deref σ' l0) = price (deref σ l0) ∨
   (price (deref σ' l0) <=? 0)%float = false).
Proof.
  intros Hf. unfold update_product_details. run. rewrite Hf.
  destruct ns as [v|]; [destruct (v <? 0)%Z eqn:Ev|];
    (destruct np as [w|]; [destruct (w <=? 0)%float eqn:Ew|]);
    unfold assign_stock, assign_price; run;
    intros [= <- <-]; rewrite ?deref_insert; cbn;
    try apply Z.ltb_ge in Ev; auto.
Qed.

Lemma consistent_updated l0 σ σ' :
  consistent σ -> updated_at l0 σ σ' ->
  (stock (deref σ' l0) = stock (deref σ l0) ∨ (0 <= stock (deref σ' l0))%Z) ->
  (price (deref σ' l0) = price (deref σ l0) ∨
   (price (deref σ' l0) <=? 0)%float = false) ->
  consistent σ'.
Proof.
  intros (Hwf & Hc & Hn & Hall) Hup Hs Hp.
  pose proof Hup as (Hinv & _).
  assert (∀ l, name (deref σ' l) = name (deref σ l) ∧
               item_code (deref σ' l) = item_code (deref σ l)) as Hattr
    by (intros l; now apply (updated_at_attrs l0)).
  split; [now apply (wf_updated_at l0 σ)|]. split; [|split].
  - replace (codes σ') with (codes σ); [exact Hc|].
    unfold codes, products. rewrite Hinv, <- !list_fmap_compose.
    apply list_fmap_ext. intros i l _. cbn. symmetry. apply Hattr.
  - replace (folded_names σ') with (folded_names σ); [exact Hn|].
    unfold folded_names, products. rewrite Hinv, <- !list_fmap_compose.
    apply list_fmap_ext. intros i l _. cbn. now rewrite (proj1 (Hattr l)).
  - unfold products in *. rewrite Hinv. rewrite Forall_fmap in *.
    eapply Forall_impl; [exact Hall|]. intros l (Hw & Hpr & Hst). cbn in *.
    rewrite (proj2 (Hattr l)). split; [exact Hw|].
    destruct (decide (l = l0)) as [-> | Hl].
    + split.
      * destruct Hp as [-> | Hp]; [exact Hpr | exact Hp].
      * destruct Hs as [-> | Hs]; [exact Hst | exact Hs].
    + rewrite (updated_at_other _ _ _ _ Hup Hl). auto.
Qed.

Lemma consistent_products σ σ' :
  wf σ' -> products σ' = products σ -> consistent σ -> consistent σ'.
Proof.
  intros Hwf Hp (_ & Hc & Hn & Hall).
  unfold consistent, codes, folded_names. rewrite Hp. auto.
Qed.

Lemma not_in_codes σ c :
  (∀ l, l ∈ inventory σ → item_code (deref σ l) ≠ c) -> c ∉ codes σ.
Proof.
  intros H Hin. unfold codes, products in Hin. rewrite <- list_fmap_compose in Hin.
  apply list_elem_of_fmap in Hin as (l & -> & Hl). now apply (H l Hl).
Qed.

Lemma not_in_folded_names σ n :
  get_product_by_name σ n = None -> lower n ∉ folded_names σ.
Proof.
  intros H Hin. unfold folded_names, products in Hin.
  rewrite <- list_fmap_compose in Hin.
  apply list_elem_of_fmap in Hin as (l & Heq & Hl).
  apply (proj1 (get_product_by_name_None σ n) H l Hl). unfold eq_ignore_case.
  cbn in Heq. congruence.
Qed.

(** [add_product] on a consistent state: it returns and the state is
    consistent again, or it raises [ValueError], changes nothing, and
    [generate_item_code] could not read a number or write the next. *)
Lemma add_product_consistent σ n pr st :
  consistent σ ->
  (∃ r σ', add_product n pr st σ = Ret r σ' ∧ consistent σ') ∨
  (add_product n pr st σ = Throw ValueError σ ∧
   (parsable σ = false ∨ ¬ next_fits σ)).
Proof.
  intros Hcons.
  destruct ((pr <=? 0)%float || (st <? 0)%Z) eqn:Eg.
  { left. exists None, σ. split; [|exact Hcons]. unfold add_product. now rewrite Eg. }
  destruct (get_product_by_name σ n) as [l0|] eqn:En.
  { left. exists None, σ. split; [|exact Hcons].
    unfold add_product. rewrite Eg. run. now rewrite En. }
  apply orb_false_iff in Eg as [Hpr Hst]. apply Z.ltb_ge in Hst.
  pose proof (consistent_numbered σ Hcons) as Hnum.
  rewrite (add_product_run σ n pr st Hpr Hst En).
  destruct (generate_item_code σ) as [code|e] eqn:Hgen.
  - left. destruct (generate_item_code_returns σ code Hgen) as [Hp Hfit].
    destruct (generate_item_code_Ok σ Hp Hfit) as (k & Hk & Hlim & Hgen').
    rewrite Hgen in Hgen'. injection Hgen' as ->.
    eexists _, _. split; [reflexivity|].
    apply (consistent_snoc σ (mkProduct n pr st ("ITM" +:+ text_03d k)));
      cbn [item_code price stock name]; auto.
    + apply generated_well_coded. pose proof (next_number_positive σ k Hnum Hk). lia.
    + apply not_in_codes. intros l Hl. now apply next_code_fresh.
    + now apply not_in_folded_names.
  - right. rewrite (generate_item_code_raises σ e Hgen). split; [reflexivity|].
    destruct (parsable σ) eqn:Hp; [right | now left].
    intros Hfit. destruct (generate_item_code_Ok σ Hp Hfit) as (k & _ & _ & Hgen').
    rewrite Hgen in Hgen'. discriminate Hgen'.
Qed.

(** X13. The three mutators keep the inventory consistent. From a state
    with valid references, pairwise distinct codes and names (letter
    case ignored), codes of the form [ITM] and digits, and prices and
    stocks that pass the checks, [update_product_details] and
    [delete_product] always return and leave such a state again.
    [add_product] does too, whatever its arguments, when [int] accepts
    the stored numbers (at most 4300 digits each) and the next number
    has at most 4300 digits; otherwise it returns such a state or raises
    [ValueError] and changes nothing. A save that can write, followed by
    the start of the application in a new process, gives a consistent
    state with the same products. *)
Theorem consistent_preserved σ :
  consistent σ ->
  (∀ n pr st,
     (∃ r σ', add_product n pr st σ = Ret r σ' ∧ consistent σ') ∨
     (add_product n pr st σ = Throw ValueError σ ∧
      (parsable σ = false ∨ ¬ next_fits σ))) ∧
  (parsable σ = true → next_fits σ →
   ∀ n pr st, ∃ r σ', add_product n pr st σ = Ret r σ' ∧ consistent σ') ∧
  (∀ code ns np, ∃ b σ',
     update_product_details code ns np σ = Ret b σ' ∧ consistent σ') ∧
  (∀ code, ∃ b σ', delete_product code σ = Ret b σ' ∧ consistent σ') ∧
  (writable σ = true → savable (products σ) = true →
   ∃ σ1 σ',
     save_inventory σ = Ret tt σ1 ∧ consistent σ1 ∧
     app_start (new_process σ1) = Ret tt σ' ∧
     products σ' = products σ ∧ consistent σ').
Proof.
  intros Hcons. split; [|split; [|split; [|split]]].
  - intros n pr st. now apply add_product_consistent.
  - intros Hp Hfit n pr st.
    destruct (add_product_consistent σ n pr st Hcons) as [H | [_ [H | H]]];
      [exact H | congruence | contradiction].
  - intros code ns np.
    destruct (update_product_details_writes σ code ns np)
      as (b & σ' & Hrun & Hnone & Hsome).
    exists b, σ'. split; [exact Hrun|].
    destruct (find_product σ code) as [l0|] eqn:Ef.
    + destruct (Hsome l0 eq_refl) as [Hup _].
      destruct (update_product_details_checked σ code ns np b σ' l0 Ef Hrun) as [Hs Hp].
      now apply (consistent_updated l0 σ).
    + now destruct (Hnone eq_refl) as [_ ->].
  - intros code.
    destruct (delete_product_run σ code)
      as [[_ Hd] | (l & pre & post & _ & Hinv & _ & Hd)]; rewrite Hd.
    + eauto.
    + eexists _, _. split; [reflexivity|]. now apply (consistent_remove σ pre l post).
  - intros Hw Hs.
    set (σ1 := set_file (snapshot (products σ)) σ).
    destruct (app_start_saved (new_process σ1) (products σ) eq_refl)
      as (ls & σ2 & Hload & Hstart & Hval & _).
    exists σ1, (set_inventory ls σ2).
    split; [now rewrite save_inventory_run, Hw, Hs|].
    split; [apply (consistent_products σ); [apply Hcons | reflexivity | exact Hcons]|].
    split; [exact Hstart|]. split; [exact Hval|].
    apply (consistent_products σ); [|exact Hval|exact Hcons].
    assert (wf (new_process σ1)) as Hwf0 by (unfold wf; cbn; constructor).
    apply (proj2 (proj2 (proj2 (proj2 (wf_preserved (new_process σ1) Hwf0)))) ls σ2 Hload).
Qed.

Lemma shop_consistent : consistent shop.
Proof.
  split; [apply shop_wf|]. split; [|split].
  - apply NoDup_cons. split; [|apply NoDup_singleton].
    intros H. apply list_elem_of_singleton in H. discriminate H.
  - apply NoDup_cons. split; [|apply NoDup_singleton].
    intros H. apply list_elem_of_singleton in H. discriminate H.
  - change (products shop) with [pen; ink].
    constructor; [|constructor; [|constructor]];
      (split; [reflexivity | split; [reflexivity | cbn; lia]]).
Qed.

Lemma consistent_preserved_witness :
  ∃ r σ', add_product "Cap" 1 3 shop = Ret r σ' ∧ consistent σ'.
Proof.
  apply (proj1 (proj2 (consistent_preserved shop shop_consistent)) eq_refl shop_next_fits).
Defined.

(** X14. In a consistent inventory every product is reachable and
    removable by its own code. [find_product] returns it for its stored
    code and for every query with that normal form,
    [get_product_by_name] returns it for its name in any letter case,
    and [delete_product] with its code removes it and no other: the code
    is not found afterwards and every other product is still found by
    its code. *)
Theorem consistent_lookup σ l :
  consistent σ -> l ∈ inventory σ ->
  find_product σ (item_code (deref σ l)) = Some l ∧
  (∀ q, normalise q = item_code (deref σ l) → find_product σ q = Some l) ∧
  (∀ n, eq_ignore_case (name (deref σ l)) n → get_product_by_name σ n = Some l) ∧
  ∃ σ',
    delete_product (item_code (deref σ l)) σ = Ret true σ' ∧
    (l ∉ inventory σ') ∧
    find_product σ' (item_code (deref σ l)) = None ∧
    (∀ l', l' ∈ inventory σ → l' ≠ l →
       l' ∈ inventory σ' ∧
       find_product σ' (item_code (deref σ l')) = Some l').
Proof.
  intros Hcons Hl. pose proof Hcons as (Hwf & Hc & Hn & Hall).
  assert (∀ l', l' ∈ inventory σ →
            normalise (item_code (deref σ l')) = item_code (deref σ l')) as Hnorm.
  { intros l' Hl'. apply well_coded_normal. rewrite Forall_forall in Hall.
    apply (Hall (deref σ l')). unfold products. now apply list_elem_of_fmap_2. }
  set (c := item_code (deref σ l)).
  assert (find_product σ c = Some l) as Hfind.
  { apply find_product_unique; auto. symmetry. now apply Hnorm. }
  split; [exact Hfind|]. split; [|split].
  - intros q Hq. apply find_product_unique; auto.
  - intros n Hname. now apply get_product_by_name_unique.
  - destruct (delete_product_run σ c)
      as [[Hf _] | (l0 & pre & post & Hf & Hinv & _ & Hd)]; [congruence|].
    rewrite Hfind in Hf. injection Hf as <-.
    set (σ' := mkState (heap σ) (pre ++ post) (file σ) (writable σ)) in *.
    assert (∀ l', l' ∈ pre ++ post → item_code (deref σ l') ≠ c) as Hne.
    { apply (fmap_split_ne (fun l' => item_code (deref σ l')) pre post l).
      unfold codes, products in Hc. now rewrite <- list_fmap_compose, Hinv in Hc. }
    pose proof (consistent_remove σ pre l post Hcons Hinv) as (_ & Hc' & _).
    exists σ'. split; [exact Hd|]. split; [|split].
    + intros Hin. now apply (Hne l Hin).
    + apply find_product_None. intros l' Hl'. unfold c. rewrite (Hnorm l Hl).
      now apply Hne.
    + intros l' Hl' Hneq.
      assert (l' ∈ pre ++ post) as Hin.
      { rewrite Hinv in Hl'. apply elem_of_app in Hl' as [H | H].
        - apply elem_of_app. now left.
        - apply elem_of_cons in H as [H | H]; [contradiction|].
          apply elem_of_app. now right. }
      split; [exact Hin|].
      apply find_product_unique; [exact Hc' | exact Hin|].
      symmetry. now apply Hnorm.
Qed.

Lemma consistent_lookup_witness :
  find_product shop (item_code (deref shop 1)) = Some 1.
Proof.
  assert (1 ∈ inventory shop) as Hin by (right; left).
  exact (proj1 (consistent_lookup shop 1 shop_consistent Hin)).
Defined.

(** *** Codes past 999 *)

(** A numeral of at most three digits is below 1000. *)
Lemma of_uint_small d : nb_digits d <= 3 -> (N.of_uint d < 1000)%N.
Proof.
  intros H.
  destruct d as [|d|d|d|d|d|d|d|d|d|d]; [vm_compute; reflexivity|..];
    (destruct d as [|d|d|d|d|d|d|d|d|d|d]; [vm_compute; reflexivity|..];
     (destruct d as [|d|d|d|d|d|d|d|d|d|d]; [vm_compute; reflexivity|..];
      (assert (d = Nil) as -> by (apply nb_digits_0; cbn in H; lia);
       vm_compute; reflexivity))).
Qed.

Lemma digits_wide n : (1000 <= n)%N -> 4 <= String.length (digits n).
Proof.
  intros Hn. unfold digits. rewrite length_string_of_uint.
  destruct (le_lt_dec (nb_digits (N.to_uint n)) 3) as [Hle | Hgt]; [|lia].
  apply of_uint_small in Hle. rewrite DecimalN.Unsigned.of_to in Hle. lia.
Qed.

(** A numeral of at most two digits is below 100. *)
Lemma of_uint_smaller d : nb_digits d <= 2 -> (N.of_uint d < 100)%N.
Proof.
  intros H.
  destruct d as [|d|d|d|d|d|d|d|d|d|d]; [vm_compute; reflexivity|..];
    (destruct d as [|d|d|d|d|d|d|d|d|d|d]; [vm_compute; reflexivity|..];
     (assert (d = Nil) as -> by (apply nb_digits_0; cbn in H; lia);
      vm_compute; reflexivity)).
Qed.

Lemma digits_wider n : (100 <= n)%N -> 3 <= String.length (digits n).
Proof.
  intros Hn. unfold digits. rewrite length_string_of_uint.
  destruct (le_lt_dec (nb_digits (N.to_uint n)) 2) as [Hle | Hgt]; [|lia].
  apply of_uint_smaller in Hle. rewrite DecimalN.Unsigned.of_to in Hle. lia.
Qed.

(** The text that [03d] gives has three characters from -99 to 999 and
    more for every other number. *)
Lemma text_03d_length k :
  3 <= String.length (text_03d k) ∧
  (String.length (text_03d k) = 3 ↔ (-100 < k < 1000)%Z).
Proof.
  assert ((-100 < k < 1000)%Z → String.length (text_03d k) = 3) as Hsmall.
  { intros Hk.
    assert (forallb (fun i => Nat.eqb (String.length (text_03d (Z.of_nat i - 99))) 3)
                    (seq 0 1099) = true) as H by (vm_compute; reflexivity).
    rewrite forallb_forall in H.
    assert (In (Z.to_nat (k + 99)) (seq 0 1099)) as Hin by (apply in_seq; lia).
    apply H, Nat.eqb_eq in Hin.
    now replace (Z.of_nat (Z.to_nat (k + 99)) - 99)%Z with k in Hin by lia. }
  destruct (Z_lt_le_dec k 1000) as [Hlt | Hge];
    [destruct (Z_lt_le_dec (-100) k) as [Hgt | Hle]|].
  - rewrite Hsmall by lia. split; [lia|]. split; [lia | reflexivity].
  - assert (4 <= String.length (text_03d k)) as Hlen.
    { unfold text_03d. destruct (Z.ltb_spec k 0) as [_ | Hneg]; [|lia].
      cbn [String.length]. rewrite length_zero_pad.
      pose proof (digits_wider (Z.abs_N k)) as Hw.
      assert (100 <= Z.abs_N k)%N as Hbig by lia. specialize (Hw Hbig). lia. }
    split; [lia|]. split; lia.
  - assert (4 <= String.length (text_03d k)) as Hlen.
    { unfold text_03d. destruct (Z.ltb_spec k 0) as [Hneg | _]; [lia|].
      rewrite length_zero_pad.
      pose proof (digits_wide (Z.abs_N k)) as Hw.
      assert (1000 <= Z.abs_N k)%N as Hbig by lia. specialize (Hw Hbig). lia. }
    split; [lia|]. split; lia.
Qed.

(** X15. The padding to three digits is a minimum width. When
    [generate_item_code] returns, its code has at least six characters,
    and exactly six when the largest stored number is from -100 to 998,
    so that the next is from -99 to 999: the code after [ITM999] is
    [ITM1000], the code after [ITM-101] is [ITM-100], and the number of
    the code is still the largest plus one. *)
Theorem generate_item_code_width σ m :
  parsable σ = true -> next_fits σ -> max_number σ m ->
  ∃ c,
    generate_item_code σ = Ok c ∧
    py_int (slice_from 3 c) = Ok (m + 1)%Z ∧
    6 <= String.length c ∧
    (String.length c = 6 ↔ (-100 <= m < 999)%Z) ∧
    (m = 999%Z → c = "ITM1000") ∧
    (m = (-101)%Z → c = "ITM-100").
Proof.
  intros Hp Hfit Hm. destruct (generate_item_code_Ok σ Hp Hfit) as (k & Hk & Hlim & Hgen).
  assert (k = (m + 1)%Z) as ->.
  { apply (next_number_unique σ); [exact Hk|]. right. eauto. }
  exists ("ITM" +:+ text_03d (m + 1)). split; [exact Hgen|].
  split; [now apply py_int_text|].
  change (String.length ("ITM" +:+ text_03d (m + 1)))
    with (S (S (S (String.length (text_03d (m + 1)))))).
  destruct (text_03d_length (m + 1)) as [Hmin Hiff].
  split; [lia|]. split; [|split].
  - split; intros H.
    + assert (String.length (text_03d (m + 1)) = 3) as H3 by lia.
      apply Hiff in H3. lia.
    + assert (String.length (text_03d (m + 1)) = 3) as -> by (apply Hiff; lia).
      reflexivity.
  - intros ->. reflexivity.
  - intros ->. reflexivity.
Qed.

Lemma generate_item_code_width_witness :
  generate_item_code (state_of [mkProduct "Pen" 10 5 "ITM999"]) = Ok "ITM1000".
Proof.
  destruct (generate_item_code_width (state_of [mkProduct "Pen" 10 5 "ITM999"]) 999)
    as (c & Hgen & _ & _ & _ & Hc & _).
  - reflexivity.
  - apply next_fits_computed. vm_compute. reflexivity.
  - split; [vm_compute; left|].
    intros j Hj. vm_compute in Hj. apply list_elem_of_singleton in Hj as ->. lia.
  - rewrite Hgen, (Hc eq_refl). reflexivity.
Defined.

(** ** Examples *)

Example upper_example : upper " itm001 " = " ITM001 ".
Proof. reflexivity. Qed.

Example strip_example : strip "  a b  " = "a b".
Proof. reflexivity. Qed.

Example py_int_examples :
  py_int " 0_12 " = Ok 12%Z ∧ py_int "-04" = Ok (-4)%Z ∧ py_int "+7" = Ok 7%Z ∧
  py_int "" = Raise ValueError ∧ py_int "1__2" = Raise ValueError ∧
  py_int "x" = Raise ValueError ∧ py_int "- 4" = Raise ValueError.
Proof. repeat split. Qed.

(** The separator 28 is white space for [str.strip] and not for [int]. *)
Example py_int_separator :
  strip (String (ascii_of_N 28) "5") = "5" ∧
  py_int (String (ascii_of_N 28) "5") = Raise ValueError ∧
  py_int (String (ascii_of_N 11) "5") = Ok 5%Z.
Proof. repeat split. Qed.

Example format_03d_examples :
  format_03d 4 = Ok "004" ∧ format_03d 0 = Ok "000" ∧ format_03d 1000 = Ok "1000" ∧
  format_03d (-4) = Ok "-04" ∧ format_03d (-100) = Ok "-100".
Proof. repeat split. Qed.

(** A missing, unreadable or undecodable file loads as the empty list,
    and so does one with an integer beyond the digit limit. *)
Example load_inventory_no_data :
  load_inventory shop = Ret [] shop ∧
  load_inventory (set_file Unreadable shop) = Ret [] (set_file Unreadable shop) ∧
  load_inventory (set_file Corrupt shop) = Ret [] (set_file Corrupt shop) ∧
  load_inventory (set_file Oversize shop) = Ret [] (set_file Oversize shop).
Proof. repeat split. Qed.

(** A record without a key, or with a stock that is no number, loads as
    the empty list; a stock given as text is converted. *)
Example load_inventory_fields :
  let keyless := set_file (Holds (JList [JObj (<["name" := JStr "Pen"]> ∅)])) empty_state in
  let wordy := set_file (Holds (JList [JObj (<["name" := JStr "Pen"]>
                 (<["price" := JFloat 10]> (<["stock" := JStr "many"]>
                 (<["item_code" := JStr "ITM001"]> ∅))))])) empty_state in
  let texty := set_file (Holds (JList [JObj (<["name" := JStr "Pen"]>
                 (<["price" := JFloat 10]> (<["stock" := JStr " 5 "]>
                 (<["item_code" := JStr "ITM001"]> ∅))))])) empty_state in
  load_inventory keyless = Ret [] keyless ∧
  load_inventory wordy = Ret [] wordy ∧
  (∃ σ', load_inventory texty = Ret [0] σ' ∧ deref σ' 0 = pen).
Proof.
  cbn zeta. split; [reflexivity | split; [reflexivity|]].
  eexists. split; [vm_compute; reflexivity | reflexivity].
Qed.

(** A file whose top-level list holds something other than records is
    not caught: [TypeError] leaves [load_inventory]. *)
Example load_inventory_raises :
  let σ := set_file (Holds (JList [JInt 1])) empty_state in
  load_inventory σ = Throw TypeError σ.
Proof. reflexivity. Qed.

(** With the stocks 5, 10 and 15 only the first product is low. *)
Example get_low_stock_items_example :
  get_low_stock_items
    (state_of [mkProduct "a" 1 5 "ITM001"; mkProduct "b" 1 10 "ITM002";
               mkProduct "c" 1 15 "ITM003"]) = [0].
Proof. reflexivity. Qed.
